(** * Verification of [data/preparations.py]

    The script has two independent procedures: the dataset partitioner and
    exporter (csv tables split 60/20/20 and re-emitted as csv and jsonl),
    and the one-off conversion of the legacy CheXNet checkpoint (a key
    rename loop over a state dict, then [load_state_dict] and [torch.save]).

    Part I embeds the script; Part II proves the properties. *)

From Stdlib Require Import List String Ascii Bool Arith ZArith Lia Permutation.
From Stdlib Require Import DecimalString DecimalNat.
Import ListNotations.
Open Scope string_scope.

(* ================================================================= *)
(** * Part I: the program *)
(* ================================================================= *)

(** ** Python dictionaries

    A [dict] keeps its entries in insertion order and the loops of the script
    iterate in that order, so a dictionary is an association list with
    pairwise distinct keys ([wf]).  Keys are [str]; they are modelled as
    strings over the code points below 256. *)

Module Dict.

Definition dict (V : Type) : Type := list (string * V).

Definition keys {V} (d : dict V) : list string := map fst d.

Definition wf {V} (d : dict V) : Prop := NoDup (keys d).

(** [d[k]]; [None] stands for [KeyError]. *)
Fixpoint get {V} (k : string) (d : dict V) : option V :=
  match d with
  | [] => None
  | (k', v) :: r => if k =? k' then Some v else get k r
  end.

Definition mem {V} (k : string) (d : dict V) : bool :=
  match get k d with Some _ => true | None => false end.

(** [d[k] = v]: an existing key keeps its position, a new key goes last. *)
Fixpoint set {V} (k : string) (v : V) (d : dict V) : dict V :=
  match d with
  | [] => [(k, v)]
  | (k', v') :: r => if k =? k' then (k', v) :: r else (k', v') :: set k v r
  end.

Definition remove {V} (k : string) (d : dict V) : dict V :=
  filter (fun e => negb (k =? fst e)) d.

(** [del d[k]]; raises [KeyError] when [k] is absent. *)
Definition del {V} (k : string) (d : dict V) : option (dict V) :=
  if mem k d then Some (remove k d) else None.

End Dict.

(** ** String helpers *)

(** [s[n:]] for [n >= 0]: a slice never raises, it is empty past the end. *)
Fixpoint slice_from (n : nat) (s : string) : string :=
  match n, s with
  | 0, _ => s
  | S n', String _ s' => slice_from n' s'
  | S _, EmptyString => EmptyString
  end.

(** [str(n)] for a non-negative integer. *)
Definition decimal (n : nat) : string :=
  NilEmpty.string_of_uint (Nat.to_uint n).

Definition is_some {A} (o : option A) : bool :=
  match o with Some _ => true | None => false end.

(** ** The legacy key pattern

    [re.compile(r'^(.*denselayer\d+\.(?:norm|relu|conv))\.((?:[12])\.(?:weight|bias|running_mean|running_var))$')]

    Everything after the leading [.*] has a fixed shape, so the two groups of
    a match are determined by the end of the key.  The matcher therefore
    reads the key backwards: the parameter suffix, the sub-index, the dot
    between the groups, then the tail of group 1, and last it checks that
    what remains is something [.*] accepts (no newline).  [$] accepts the end
    of the key and also the position before a final newline. *)

Module KeyPattern.

Definition newline : ascii := "010"%char.

Definition is_digit (c : ascii) : bool :=
  (48 <=? nat_of_ascii c)%nat && (nat_of_ascii c <=? 57)%nat.

Definition chars : string -> list ascii := list_ascii_of_string.

Definition suffixes : list string :=
  ["weight"; "bias"; "running_mean"; "running_var"].

Definition subindices : list string := ["1"; "2"].

Definition layers : list string := ["norm"; "relu"; "conv"].

Fixpoint strip_prefix (p l : list ascii) : option (list ascii) :=
  match p, l with
  | [], _ => Some l
  | a :: p', b :: l' => if Ascii.eqb a b then strip_prefix p' l' else None
  | _ :: _, [] => None
  end.

(** The first word of [ws] that [l] ends with when read forwards, that is
    whose reversal starts the reversed key [l]. *)
Fixpoint strip_word (ws : list string) (l : list ascii)
  : option (string * list ascii) :=
  match ws with
  | [] => None
  | w :: ws' =>
      match strip_prefix (rev (chars w)) l with
      | Some r => Some (w, r)
      | None => strip_word ws' l
      end
  end.

Fixpoint span_digits (l : list ascii) : list ascii * list ascii :=
  match l with
  | c :: l' =>
      if is_digit c
      then let (ds, r) := span_digits l' in (c :: ds, r)
      else ([], l)
  | [] => ([], [])
  end.

Definition free_of_newline (l : list ascii) : bool :=
  forallb (fun c => negb (Ascii.eqb c newline)) l.

(** Group 1 read backwards: [(norm|relu|conv)], a dot, [\d+], [denselayer]
    and a newline-free rest. *)
Definition group1_ok (g : list ascii) : bool :=
  match strip_word layers g with
  | None => false
  | Some (_, r) =>
      match strip_prefix (rev (chars ".")) r with
      | None => false
      | Some r' =>
          match span_digits r' with
          | ([], _) => false
          | (_ :: _, r'') =>
              match strip_prefix (rev (chars "denselayer")) r'' with
              | None => false
              | Some x => free_of_newline x
              end
          end
      end
  end.

(** A match of the whole pattern against the reversed text [r] that ends
    where [$] holds; the result is [(group(1), group(2))]. *)
Definition match_reversed (r : list ascii) : option (string * string) :=
  match strip_word suffixes r with
  | None => None
  | Some (suffix, r1) =>
      match strip_prefix (rev (chars ".")) r1 with
      | None => None
      | Some r2 =>
          match strip_word subindices r2 with
          | None => None
          | Some (sub, r3) =>
              match strip_prefix (rev (chars ".")) r3 with
              | None => None
              | Some g1 =>
                  if group1_ok g1
                  then Some (string_of_list_ascii (rev g1),
                             sub ++ "." ++ suffix)
                  else None
              end
          end
      end
  end.

(** [pattern.match(key)]: [None] when there is no match. *)
Definition pattern_match (key : string) : option (string * string) :=
  let r := rev (chars key) in
  match match_reversed r with
  | Some g => Some g
  | None =>
      match r with
      | c :: r' => if Ascii.eqb c newline then match_reversed r' else None
      | [] => None
      end
  end.

(** The pattern read piece by piece: [key] is [g1], a dot, [g2] and what
    [$] tolerates, with [g1] of the shape [.*denselayer\d+\.(norm|relu|conv)]
    and [g2] of the shape [[12]\.(weight|bias|running_mean|running_var)]. *)
Definition matches (key g1 g2 : string) : Prop :=
  exists x ds layer sub suffix eol,
    g1 = x ++ "denselayer" ++ ds ++ "." ++ layer /\
    g2 = sub ++ "." ++ suffix /\
    key = g1 ++ "." ++ g2 ++ eol /\
    free_of_newline (chars x) = true /\
    ds <> "" /\
    forallb is_digit (chars ds) = true /\
    In layer layers /\ In sub subindices /\ In suffix suffixes /\
    (eol = "" \/ eol = String newline "").

End KeyPattern.

(** ** The checkpoint key remapping loop (lines 211-222) *)

Module Remap.
Import Dict KeyPattern.

Definition remove_data_parallel : bool := true.

(** Rule 1 alone: [match.group(1) + match.group(2) if match else key]. *)
Definition rename (key : string) : string :=
  match pattern_match key with
  | Some (g1, g2) => g1 ++ g2
  | None => key
  end.

(** The name under which the tensor of [key] is re-inserted. *)
Definition new_key (key : string) : string :=
  let new_key := rename key in
  if remove_data_parallel then slice_from 7 new_key else new_key.

(** One iteration of the loop body on the shared mapping. *)
Definition remap_step {T} (key : string) (state_dict : dict T)
  : option (dict T) :=
  let mtch := pattern_match key in
  match get key state_dict with
  | None => None
  | Some tensor =>
      let state_dict := set (new_key key) tensor state_dict in
      if is_some mtch || remove_data_parallel
      then del key state_dict
      else Some state_dict
  end.

Fixpoint remap_loop {T} (snapshot : list string) (state_dict : dict T)
  : option (dict T) :=
  match snapshot with
  | [] => Some state_dict
  | key :: rest =>
      match remap_step key state_dict with
      | None => None
      | Some state_dict' => remap_loop rest state_dict'
      end
  end.

(** [for key in list(state_dict.keys()): ...] *)
Definition remap {T} (state_dict : dict T) : option (dict T) :=
  remap_loop (keys state_dict) state_dict.

(** An entry under its new name. *)
Definition transformed {T} (e : string * T) : string * T :=
  (new_key (fst e), snd e).

(** [acc[new_key(k)] = v] for an entry [(k, v)]. *)
Definition rename_into {T} (acc : dict T) (e : string * T) : dict T :=
  set (new_key (fst e)) (snd e) acc.

(** The dict that [{new_key(k): v for k, v in state_dict.items()}] denotes:
    the entries in order under their new names, a later entry taking the
    place (and keeping the position) of an earlier one of the same new
    name. *)
Definition renamed_dict {T} (state_dict : dict T) : dict T :=
  fold_left rename_into state_dict [].

(** What the specification expects of the loop: the result holds exactly the
    tensors of the original mapping, each under its transformed name. *)
Definition is_image {T} (original result : dict T) : Prop :=
  forall k' v,
    get k' result = Some v <->
    exists k, In (k, v) original /\ new_key k = k'.

End Remap.

(** ** A small monad for the effectful parts

    A computation runs on a state [S] (file system, console, generator) and
    either returns a value or stops with an uncaught exception ([None]); the
    state reached so far is kept in both cases. *)

Module Eff.

Definition M (S A : Type) : Type := S -> option A * S.

Definition ret {S A} (a : A) : M S A := fun s => (Some a, s).

Definition bind {S A B} (m : M S A) (f : A -> M S B) : M S B :=
  fun s =>
    match m s with
    | (Some a, s') => f a s'
    | (None, s') => (None, s')
    end.

(** A pure step that may raise. *)
Definition lift {S A} (o : option A) : M S A := fun s => (o, s).

End Eff.

Declare Scope eff_scope.
Delimit Scope eff_scope with eff.
Notation "x <- m ;; k" := (Eff.bind m (fun x => k))
  (at level 61, m at next level, right associativity) : eff_scope.
Notation "m ;;; k" := (Eff.bind m (fun _ => k))
  (at level 61, right associativity) : eff_scope.

(** ** The model and the checkpoint procedure (lines 173-230)

    [torch] and [torchvision] are libraries; what the script uses of them is
    modelled here: a module is a tree of named children, its state dict is
    the flattening of that tree with dotted names.  Tensor values are
    abstract.  Three things are left to the environment: whether
    [torchvision] can provide the pretrained weights, which state dicts the
    strict loader of [torch] accepts for a module (its checks of names and of
    tensor shapes), and at which paths a file can be written. *)

Module Torch.
Import Dict Eff.

Section Modules.
Variable tensor : Type.

#[local] Set Warnings "-register-all".

Inductive module : Type :=
| Linear (in_features out_features : nat) (weight bias : tensor)
| Sigmoid
| Sequential (layers : list module)
| Features (state : dict tensor)
| Composite (children : list (string * module)).

Definition getattr (name : string) (m : module) : option module :=
  match m with
  | Composite children => get name children
  | _ => None
  end.

Definition setattr (name : string) (v : module) (m : module) : module :=
  match m with
  | Composite children => Composite (set name v children)
  | _ => m
  end.

Definition in_features_of (m : module) : option nat :=
  match m with
  | Linear i _ _ _ => Some i
  | _ => None
  end.

(** [m.state_dict(prefix=prefix)] *)
Fixpoint state_dict (prefix : string) (m : module) : dict tensor :=
  match m with
  | Linear _ _ w b => [(prefix ++ "weight", w); (prefix ++ "bias", b)]
  | Sigmoid => []
  | Sequential layers =>
      (fix go (i : nat) (ms : list module) : dict tensor :=
         match ms with
         | [] => []
         | c :: ms' =>
             (state_dict (prefix ++ decimal i ++ ".") c ++ go (S i) ms')%list
         end) 0 layers
  | Features st => map (fun e => (prefix ++ fst e, snd e)) st
  | Composite children =>
      (fix go (cs : list (string * module)) : dict tensor :=
         match cs with
         | [] => []
         | (n, c) :: cs' =>
             (state_dict (prefix ++ n ++ ".") c ++ go cs')%list
         end) children
  end.

Definition assign (sd : dict tensor) (name : string) (old : tensor) : tensor :=
  match get name sd with Some t => t | None => old end.

(** Copy the tensors of [sd] onto the parameters of [m], by name. *)
Fixpoint load_from (sd : dict tensor) (prefix : string) (m : module) : module :=
  match m with
  | Linear i o w b =>
      Linear i o (assign sd (prefix ++ "weight") w)
                 (assign sd (prefix ++ "bias") b)
  | Sigmoid => Sigmoid
  | Sequential layers =>
      Sequential
        ((fix go (i : nat) (ms : list module) : list module :=
            match ms with
            | [] => []
            | c :: ms' =>
                load_from sd (prefix ++ decimal i ++ ".") c :: go (S i) ms'
            end) 0 layers)
  | Features st =>
      Features (map (fun e => (fst e, assign sd (prefix ++ fst e) (snd e))) st)
  | Composite children =>
      Composite
        ((fix go (cs : list (string * module)) : list (string * module) :=
            match cs with
            | [] => []
            | (n, c) :: cs' =>
                (n, load_from sd (prefix ++ n ++ ".") c) :: go cs'
            end) children)
  end.

Definition subset (a b : list string) : bool :=
  forallb (fun k => existsb (String.eqb k) b) a.

(** A check that compares names only: the names of the state dict are those
    of the module, none missing and none in excess. *)
Definition names_agree (m : module) (sd : dict tensor) : bool :=
  let expected := keys (state_dict "" m) in
  subset expected (keys sd) && subset (keys sd) expected.

(** The checks of the strict loader: [accepts m sd] tells whether
    [m.load_state_dict(sd)] goes through.  They belong to [torch] (names,
    with its allowances for buffers that older versions did not save, and
    tensor shapes) and are not fixed here. *)
Variable accepts : module -> dict tensor -> bool.

(** [m.load_state_dict(sd)] with [strict=True]: raises when the checks fail,
    and otherwise copies the tensors of [sd] onto the parameters of the same
    name. *)
Definition load_state_dict (m : module) (sd : dict tensor) : option module :=
  if accepts m sd then Some (load_from sd "" m) else None.

(** What the script takes from outside: the pretrained torchvision weights
    and the random initialisation of the new linear layer. *)
Record weights : Type := {
  features_state : dict tensor;
  fc_weight : tensor;
  fc_bias : tensor;
  head_weight : tensor;
  head_bias : tensor
}.

(** [torchvision.models.densenet121(pretrained=True)]: the feature extractor
    and a 1024-to-1000 linear classifier. *)
Definition torchvision_densenet121 (w : weights) : module :=
  Composite [("features", Features (features_state w));
             ("classifier", Linear 1024 1000 (fc_weight w) (fc_bias w))].

(** [DenseNet121.__init__] (lines 186-193) *)
Definition DenseNet121 (w : weights) (out_size : nat) : option module :=
  let densenet121 := torchvision_densenet121 w in
  match getattr "classifier" densenet121 with
  | None => None
  | Some classifier =>
      match in_features_of classifier with
      | None => None
      | Some num_ftrs =>
          let densenet121 :=
            setattr "classifier"
              (Sequential [Linear num_ftrs out_size (head_weight w) (head_bias w);
                           Sigmoid])
              densenet121 in
          Some (Composite [("densenet121", densenet121)])
      end
  end.

(** Files [torch.load] and [torch.save] exchange. *)
Inductive file : Type :=
| Pickled_dict (entries : dict (dict tensor))
| Pickled_module (m : module).

(** The files, the console, and [writable]: whether a file can be created
    or replaced at a path (its directory exists and allows it). *)
Record world : Type := {
  fs : string -> option file;
  writable : string -> bool;
  stdout : list string
}.

Definition print (line : string) : M world unit :=
  fun w => (Some tt, {| fs := fs w;
                        writable := writable w;
                        stdout := (stdout w ++ [line])%list |}).

Definition isfile (path : string) : M world bool :=
  fun w => (Some (is_some (fs w path)), w).

(** [torch.load(path)[key]] on a pickled dict. *)
Definition torch_load_entry (path key : string) : M world (dict tensor) :=
  fun w =>
    match fs w path with
    | Some (Pickled_dict entries) => (get key entries, w)
    | _ => (None, w)
    end.

(** [torch.save(m, path)]: raises when the file cannot be written (a missing
    [models] directory, say), and nothing is written then. *)
Definition torch_save (m : module) (path : string) : M world unit :=
  fun w =>
    if writable w path
    then (Some tt,
          {| fs := fun p => if p =? path then Some (Pickled_module m)
                            else fs w p;
             writable := writable w;
             stdout := stdout w |})
    else (None, w).

Definition SAVED_MODELS_DIR : string := "models".
Definition CKPT_PATH : string := SAVED_MODELS_DIR ++ "/" ++ "model.pth.tar".
Definition SAVED_PATH : string := SAVED_MODELS_DIR ++ "/" ++ "saved_chexnet.pt".
Definition N_CLASSES : nat := 14.

Open Scope eff_scope.

(** Lines 202-230.  [hub] is what [torchvision] can provide: the pretrained
    weights, or nothing (no cached copy and no network), in which case the
    construction of the model raises. *)
Definition convert_checkpoint (hub : option weights) : M world unit :=
  w <- lift hub ;;
  model_ft <- lift (DenseNet121 w N_CLASSES) ;;
  found <- isfile CKPT_PATH ;;
  model_ft <-
    (if found : bool
     then
       print "=> loading checkpoint" ;;;
       state_dict <- torch_load_entry CKPT_PATH "state_dict" ;;
       state_dict <- lift (Remap.remap state_dict) ;;
       model_ft <- lift (load_state_dict model_ft state_dict) ;;
       print "=> loaded checkpoint" ;;;
       ret model_ft
     else
       print "=> no checkpoint found" ;;;
       ret model_ft) ;;
  densenet121 <- lift (getattr "densenet121" model_ft) ;;
  torch_save densenet121 SAVED_PATH ;;;
  print "Model saved.".

Close Scope eff_scope.

(** The replaced classification head: a linear projection followed by a
    sigmoid. *)
Definition is_head (m : module) : Prop :=
  exists i o wt b, m = Sequential [Linear i o wt b; Sigmoid].

(** An artifact that leaves the head out has no child that is the head. *)
Definition excludes_head (m : module) : Prop :=
  match m with
  | Composite children => forall n c, In (n, c) children -> ~ is_head c
  | _ => ~ is_head m
  end.

End Modules.

Arguments Linear {tensor}.
Arguments Sigmoid {tensor}.
Arguments Sequential {tensor}.
Arguments Features {tensor}.
Arguments Composite {tensor}.
Arguments Pickled_dict {tensor}.
Arguments Pickled_module {tensor}.
Arguments fs {tensor}.
Arguments writable {tensor}.
Arguments stdout {tensor}.
Arguments Build_world {tensor}.
Arguments Build_weights {tensor}.
Arguments features_state {tensor}.
Arguments fc_weight {tensor}.
Arguments fc_bias {tensor}.
Arguments head_weight {tensor}.
Arguments head_bias {tensor}.
Arguments getattr {tensor}.
Arguments setattr {tensor}.
Arguments in_features_of {tensor}.
Arguments state_dict {tensor}.
Arguments assign {tensor}.
Arguments load_from {tensor}.
Arguments names_agree {tensor}.
Arguments load_state_dict {tensor}.
Arguments torchvision_densenet121 {tensor}.
Arguments DenseNet121 {tensor}.
Arguments print {tensor}.
Arguments isfile {tensor}.
Arguments torch_load_entry {tensor}.
Arguments torch_save {tensor}.
Arguments convert_checkpoint {tensor}.
Arguments is_head {tensor}.
Arguments excludes_head {tensor}.

End Torch.

(** ** Tables (lines 123-135)

    A [DataFrame] is its column labels and its rows, each row carrying its
    index label.  Cells are kept as the JSON scalars [to_json] renders them
    to (numeric cells are integers here). *)

Module Frame.
Import Dict.

Inductive json : Type :=
| JNull
| JBool (b : bool)
| JInt (z : Z)
| JStr (s : string).

Record DataFrame : Type := {
  columns : list string;
  rows : list (nat * list json)
}.

Definition index (df : DataFrame) : list nat := map fst (rows df).

Definition shape0 (df : DataFrame) : nat := List.length (rows df).

(** A file on which [pd.read_csv] does nothing but number the records: the
    header labels are distinct and not empty, and every record has exactly
    one field per label.  (On other files [pandas] renames repeated or empty
    labels, pads short records and takes the leading fields of longer
    records as the index; such files are outside the model.) *)
Definition regular (header : list string) (records : list (list json))
  : Prop :=
  NoDup header /\ ~ In "" header /\
  forall r, In r records -> List.length r = List.length header.

(** [pd.read_csv] on a parsed regular file (header and records): the rows
    get the default index [0 .. n-1]. *)
Definition read_csv (header : list string) (records : list (list json))
  : DataFrame :=
  {| columns := header;
     rows := combine (seq 0 (List.length records)) records |}.

Definition rename_column (c : string) : string :=
  if c =? "Filename" then "img"
  else if c =? "Label" then "label"
  else if c =? "LabelText" then "text"
  else c.

(** [df.rename(columns={"Filename": "img", "Label": "label", "LabelText": "text"})] *)
Definition rename (df : DataFrame) : DataFrame :=
  {| columns := map rename_column (columns df); rows := rows df |}.

(** Lines 128-129 for one file. *)
Definition load_table (header : list string) (records : list (list json))
  : DataFrame :=
  rename (read_csv header records).

(** The row at a position, if there is one. *)
Definition row_at {A} (l : list A) (i : nat) : list A :=
  match nth_error l i with
  | Some r => [r]
  | None => []
  end.

(** [df.iloc[positions]]: rows by position, index labels kept. *)
Definition iloc (positions : list nat) (df : DataFrame) : DataFrame :=
  {| columns := columns df;
     rows := flat_map (row_at (rows df)) positions |}.

Fixpoint nodupb {A} (eqb : A -> A -> bool) (l : list A) : bool :=
  match l with
  | [] => true
  | a :: l' => negb (existsb (eqb a) l') && nodupb eqb l'
  end.

(** [json.loads(df.to_json(orient="index"))]: one entry per row, keyed by the
    index label written in decimal, holding the row as a dict from column
    label to cell.  [to_json] raises unless index and columns are unique. *)
Definition to_json_index (df : DataFrame) : option (dict (dict json)) :=
  if nodupb Nat.eqb (index df) && nodupb String.eqb (columns df)
  then Some (map (fun r => (decimal (fst r), combine (columns df) (snd r)))
                 (rows df))
  else None.

End Frame.

(** ** [sklearn.model_selection.train_test_split] (lines 138-143)

    The library function, as the script calls it (one array, a float
    [test_size], no [train_size], shuffling, no stratification):
    [n_test = ceil(test_size * n)], [n_train = n - n_test], a [ValueError]
    when the train set would be empty; the generator yields a permutation of
    the positions, whose first [n_test] entries select the test rows and the
    following [n_train] the train rows.  An integer [random_state] seeds a
    fresh generator for the call; [None] draws from the process-wide one.
    [test_size] is given as a fraction ([0.2] is [1/5], [0.25] is [1/4]; the
    floating-point product has the same ceiling for every table a file can
    hold). *)

Module Sklearn.
Import Frame.

Record RandomState : Type := {
  rng : Type;
  seeded : nat -> rng;
  permutation : rng -> nat -> list nat * rng
}.

(** What [numpy] guarantees of [permutation(n)]. *)
Definition permutes (np : RandomState) : Prop :=
  forall g n, Permutation (fst (permutation np g n)) (seq 0 n).

Definition ceil_frac (n num den : nat) : nat := (n * num + (den - 1)) / den.

Definition train_test_split (np : RandomState) (df : DataFrame)
    (test_size : nat * nat) (random_state : option nat)
  : Eff.M (rng np) (DataFrame * DataFrame) :=
  fun global =>
    let n_samples := shape0 df in
    let n_test := ceil_frac n_samples (fst test_size) (snd test_size) in
    let n_train := n_samples - n_test in
    if Nat.eqb n_train 0 then (None, global)
    else
      let '(perm, global') :=
        match random_state with
        | Some seed => (fst (permutation np (seeded np seed) n_samples), global)
        | None => permutation np global n_samples
        end in
      let ind_test := firstn n_test perm in
      let ind_train := firstn n_train (skipn n_test perm) in
      (Some (iloc ind_train df, iloc ind_test df), global').

End Sklearn.

(** ** Export (lines 79-99 and 137-162) *)

Module Exporter.
Import Dict Frame Sklearn Eff.

(** [data_obj[key] = value] *)
Definition put (data_obj : dict json) (kv : string * json) : dict json :=
  set (fst kv) (snd kv) data_obj.

(** The body of the row loop of [create_jsonl_data] on the shared
    [data_obj]. *)
Definition write_row (data_obj : dict json) (idx : string)
    (data_dict : dict json) : dict json :=
  fold_left put data_dict (set "id" (JStr idx) data_obj).

(** The lines written, each the content of [data_obj] at the time of its
    [json.dumps]. *)
Fixpoint jsonl_lines (data_obj : dict json) (items : dict (dict json))
  : list (dict json) :=
  match items with
  | [] => []
  | (idx, data_dict) :: rest =>
      let data_obj := write_row data_obj idx data_dict in
      data_obj :: jsonl_lines data_obj rest
  end.

(** [create_jsonl_data]: the content of the file it writes, line by line. *)
Definition create_jsonl_data (json_dict : dict (dict json))
  : list (dict json) :=
  jsonl_lines [] json_dict.

(** [create_csv_data]: the table is written as it is, index included. *)
Definition create_csv_data (df : DataFrame) : DataFrame := df.

Inductive artifact : Type :=
| Csv (df : DataFrame)
| Jsonl (lines : list (dict json)).

Record partitions : Type := {
  train : DataFrame;
  val : DataFrame;
  test : DataFrame
}.

Definition JSON_DIR : string := "json".
Definition CSV_DIR : string := "csv".

(** [os.path.join(directory, name)] *)
Definition path_join (directory name : string) : string :=
  directory ++ "/" ++ name.

Open Scope eff_scope.

(** Lines 139-143. *)
Definition split_table (np : RandomState) (df : DataFrame)
  : M (rng np) partitions :=
  tt1 <- train_test_split np df (1, 5) (Some 1) ;;
  tv <- train_test_split np (fst tt1) (1, 4) (Some 1) ;;
  ret {| train := fst tv; val := snd tv; test := snd tt1 |}.

Definition jsonl_of (df : DataFrame) : option (list (dict json)) :=
  option_map create_jsonl_data (to_json_index df).

(** The body of the loop of lines 138-162 for one table: the six files. *)
Definition export_table (np : RandomState) (name : string) (df : DataFrame)
  : M (rng np) (list (string * artifact)) :=
  p <- split_table np df ;;
  train_lines <- lift (jsonl_of (train p)) ;;
  val_lines <- lift (jsonl_of (val p)) ;;
  test_lines <- lift (jsonl_of (test p)) ;;
  ret [ (path_join CSV_DIR (name ++ "_train.csv"), Csv (create_csv_data (train p)));
        (path_join CSV_DIR (name ++ "_val.csv"), Csv (create_csv_data (val p)));
        (path_join CSV_DIR (name ++ "_test.csv"), Csv (create_csv_data (test p)));
        (path_join JSON_DIR (name ++ "_train.jsonl"), Jsonl train_lines);
        (path_join JSON_DIR (name ++ "_val.jsonl"), Jsonl val_lines);
        (path_join JSON_DIR (name ++ "_test.jsonl"), Jsonl test_lines) ].

Close Scope eff_scope.

(** The [id] a line carries. *)
Definition id_of (line : dict json) : option json := get "id" line.

(** [data_obj] after the loop of [create_jsonl_data] has gone through
    [items]. *)
Definition data_obj_after (data_obj : dict json) (items : dict (dict json))
  : dict json :=
  fold_left (fun obj it => write_row obj (fst it) (snd it)) items data_obj.

(** Two tables share no index label. *)
Definition disjoint_index (a b : DataFrame) : Prop :=
  forall i, In i (index a) -> ~ In i (index b).

(** The three tables hold the rows of [df] between them and no index label
    twice. *)
Definition partition_of (p : partitions) (df : DataFrame) : Prop :=
  Permutation (rows (train p) ++ rows (val p) ++ rows (test p))%list (rows df) /\
  (forall r, In r (rows df) <->
             In r (rows (train p)) \/ In r (rows (val p)) \/ In r (rows (test p))) /\
  disjoint_index (train p) (val p) /\
  disjoint_index (train p) (test p) /\
  disjoint_index (val p) (test p).

(** A fifth of the [n] rows, rounded up, for the test table, then a quarter
    of the remainder, rounded up, for the validation table. *)
Definition split_sizes (p : partitions) (n : nat) : Prop :=
  shape0 (test p) = ceil_frac n 1 5 /\
  shape0 (val p) = ceil_frac (n - shape0 (test p)) 1 4 /\
  shape0 (train p) = n - shape0 (test p) - shape0 (val p).



(** The fields of a line are exactly [ks]. *)
Definition has_fields (line : dict json) (ks : list string) : Prop :=
  forall k, In k (keys line) <-> In k ks.

End Exporter.

(** ** Sample inputs *)

Module Samples.
Import Dict.

(** A mapping in which the new name of the first key is the second key. *)
Definition chain_checkpoint : dict nat :=
  [("module.module.fc.bias", 1); ("module.fc.bias", 2)].

(** Two keys with the same new name. *)
Definition colliding_checkpoint : dict nat :=
  [("module.a", 1); ("xxxxxxxa", 2)].

Definition sample_checkpoint : dict nat :=
  [("module.features.denselayer1.norm.1.weight", 1);
   ("module.classifier.0.weight", 2)].

Definition sample_weights : Torch.weights nat :=
  {| Torch.features_state := [("conv0.weight", 10); ("norm0.running_mean", 11)];
     Torch.fc_weight := 20;
     Torch.fc_bias := 21;
     Torch.head_weight := 30;
     Torch.head_bias := 31 |}.

(** A machine without any file, on which every path can be written. *)
Definition empty_world : Torch.world nat :=
  {| Torch.fs := fun _ => None;
     Torch.writable := fun _ => true;
     Torch.stdout := [] |}.


(** A generator whose permutation is the reversal. *)
Definition reversing : Sklearn.RandomState :=
  {| Sklearn.rng := nat;
     Sklearn.seeded := fun seed => seed;
     Sklearn.permutation := fun g n => (rev (seq 0 n), S g) |}.

(** A generator whose permutation depends on its state. *)
Definition alternating : Sklearn.RandomState :=
  {| Sklearn.rng := nat;
     Sklearn.seeded := fun seed => seed;
     Sklearn.permutation :=
       fun g n => (if Nat.even g then seq 0 n else rev (seq 0 n), S g) |}.

Definition sample_header : list string := ["Filename"; "Label"; "LabelText"].

Definition sample_records : list (list Frame.json) :=
  [ [Frame.JStr "a.png"; Frame.JInt 0; Frame.JStr "clear"];
    [Frame.JStr "b.png"; Frame.JInt 1; Frame.JStr "opacity"];
    [Frame.JStr "c.png"; Frame.JInt 0; Frame.JStr "normal"];
    [Frame.JStr "d.png"; Frame.JInt 1; Frame.JStr "effusion"];
    [Frame.JStr "e.png"; Frame.JInt 0; Frame.JStr "no finding"] ].



(** Rows with growing key sets. *)
Definition growing_rows : dict (dict Frame.json) :=
  [ ("0", [("a", Frame.JInt 1)]);
    ("1", [("a", Frame.JInt 2); ("b", Frame.JInt 3)]) ].

(** Rows of which the second lacks a key of the first. *)
Definition ragged_rows : dict (dict Frame.json) :=
  [ ("0", [("img", Frame.JStr "a.png"); ("text", Frame.JStr "clear")]);
    ("1", [("img", Frame.JStr "b.png")]) ].

End Samples.

(** ** The directory listing and the output files (lines 124-130, 146-162) *)

Module Listing.
Import Frame Exporter.

(** [s.partition(sep)] for a separator of one character: the text before
    the first separator, the separator, the text after it; the whole text
    and two empty strings when there is no separator. *)
Fixpoint str_partition (sep : ascii) (s : string) : string * string * string :=
  match s with
  | EmptyString => (EmptyString, EmptyString, EmptyString)
  | String c s' =>
      if Ascii.eqb c sep
      then (EmptyString, String sep EmptyString, s')
      else let '(h, m, t) := str_partition sep s' in (String c h, m, t)
  end.

(** Line 127: [name = filename.partition('.')[0]]. *)
Definition table_name (filename : string) : string :=
  fst (fst (str_partition "."%char filename)).

(** The paths of the six files written for the table [name]. *)
Definition output_paths (name : string) : list string :=
  [ path_join CSV_DIR (name ++ "_train.csv");
    path_join CSV_DIR (name ++ "_val.csv");
    path_join CSV_DIR (name ++ "_test.csv");
    path_join JSON_DIR (name ++ "_train.jsonl");
    path_join JSON_DIR (name ++ "_val.jsonl");
    path_join JSON_DIR (name ++ "_test.jsonl") ].

(** The line of a row of a table when nothing is left over from other rows:
    the [id], then the cells under their column labels. *)
Definition own_line (cols : list string) (r : nat * list json)
  : Dict.dict json :=
  ("id", JStr (decimal (fst r))) :: combine cols (snd r).

(** Every row has a cell for every column. *)
Definition rectangular (df : DataFrame) : Prop :=
  forall r, In r (rows df) -> List.length (snd r) = List.length (columns df).

End Listing.

(** ** The parameter names of the model (lines 186-193, 202) *)

Module TorchNames.
Import Dict Torch.

(** The names under which [model_ft] keeps its tensors: those of the feature
    extractor below [densenet121.features.], then the weight and the bias of
    the linear layer of the head. *)
Definition parameter_names {tensor} (w : weights tensor) : list string :=
  (map (String.append "densenet121.features.") (keys (features_state w))
   ++ ["densenet121.classifier.0.weight"; "densenet121.classifier.0.bias"])%list.

End TorchNames.

(** ** Further sample inputs *)

Module MoreSamples.
Import Dict.

(** Weights of a model whose feature extractor has a dense layer. *)
Definition layer_weights : Torch.weights nat :=
  {| Torch.features_state :=
       [("conv0.weight", 10);
        ("denseblock1.denselayer1.norm1.weight", 11)];
     Torch.fc_weight := 20;
     Torch.fc_bias := 21;
     Torch.head_weight := 30;
     Torch.head_bias := 31 |}.

(** A legacy checkpoint for that model, saved under the wrapper prefix. *)
Definition legacy_state_dict : dict nat :=
  [("module.densenet121.features.conv0.weight", 110);
   ("module.densenet121.features.denseblock1.denselayer1.norm.1.weight", 111);
   ("module.densenet121.classifier.0.weight", 130);
   ("module.densenet121.classifier.0.bias", 131)].

Definition legacy_world : Torch.world nat :=
  {| Torch.fs := fun p => if p =? Torch.CKPT_PATH
                          then Some (Torch.Pickled_dict
                                       [("epoch", []);
                                        ("state_dict", legacy_state_dict)])
                          else None;
     Torch.writable := fun _ => true;
     Torch.stdout := [] |}.

(** A label file with both a [Filename] and an [img] column. *)
Definition clash_header : list string := ["Filename"; "img"; "Label"].

Definition clash_records : list (list Frame.json) :=
  [ [Frame.JStr "a.png"; Frame.JStr "a"; Frame.JInt 0];
    [Frame.JStr "b.png"; Frame.JStr "b"; Frame.JInt 1];
    [Frame.JStr "c.png"; Frame.JStr "c"; Frame.JInt 0] ].

End MoreSamples.

(* ================================================================= *)
(** * Part II: properties *)
(* ================================================================= *)

(** ** The key pattern

    The backwards matcher finds a match exactly when the pattern, read piece
    by piece, has one, and then returns its two groups. *)

Module KeyPatternFacts.
Import KeyPattern.

Lemma chars_app a b : chars (a ++ b) = (chars a ++ chars b)%list.
Proof. induction a as [|c a IH]; simpl; [reflexivity | now rewrite IH]. Qed.

Lemma chars_inj a b : chars a = chars b -> a = b.
Proof.
  intros E. rewrite <- (string_of_list_ascii_of_string a),
                    <- (string_of_list_ascii_of_string b).
  unfold chars in E. now rewrite E.
Qed.

Lemma chars_of_list l : chars (string_of_list_ascii l) = l.
Proof. apply list_ascii_of_string_of_list_ascii. Qed.

Lemma strip_prefix_some p l r : strip_prefix p l = Some r -> l = (p ++ r)%list.
Proof.
  revert l. induction p as [|a p IH]; intros l; simpl.
  - intros E; now inversion E.
  - destruct l as [|b l]; [discriminate|].
    destruct (Ascii.eqb_spec a b) as [->|]; [|discriminate].
    intros E. now rewrite (IH _ E).
Qed.

Lemma strip_prefix_app p l : strip_prefix p (p ++ l)%list = Some l.
Proof.
  induction p as [|a p IH]; simpl; [reflexivity|].
  now rewrite Ascii.eqb_refl.
Qed.

Lemma strip_word_some ws l w r :
  strip_word ws l = Some (w, r) -> In w ws /\ l = (rev (chars w) ++ r)%list.
Proof.
  induction ws as [|w0 ws IH]; simpl; [discriminate|].
  destruct (strip_prefix (rev (chars w0)) l) as [r0|] eqn:E.
  - intros H; inversion H; subst. split; [now left|].
    now apply strip_prefix_some.
  - intros H. destruct (IH H) as [Hin Hl]. split; [now right | exact Hl].
Qed.

Lemma span_digits_some l ds r :
  span_digits l = (ds, r) ->
  l = (ds ++ r)%list /\ forallb is_digit ds = true.
Proof.
  revert ds r. induction l as [|c l IH]; intros ds r; simpl.
  - intros E; inversion E; now split.
  - destruct (is_digit c) eqn:Ec.
    + destruct (span_digits l) as [ds' r'] eqn:El.
      intros E; inversion E; subst. destruct (IH _ _ eq_refl) as [-> Hd].
      split; [reflexivity|]. simpl. now rewrite Ec.
    + intros E; inversion E; now split.
Qed.

Lemma span_digits_app ds c r :
  forallb is_digit ds = true -> is_digit c = false ->
  span_digits (ds ++ c :: r)%list = (ds, c :: r).
Proof.
  intros Hd Hc. induction ds as [|d ds IH]; simpl.
  - now rewrite Hc.
  - simpl in Hd. apply andb_true_iff in Hd. destruct Hd as [Hd1 Hd2].
    rewrite Hd1, (IH Hd2). reflexivity.
Qed.

Lemma forallb_rev {A} (f : A -> bool) l : forallb f (rev l) = forallb f l.
Proof.
  induction l as [|a l IH]; simpl; [reflexivity|].
  rewrite forallb_app, IH. simpl. rewrite andb_true_r. apply andb_comm.
Qed.

Lemma group1_ok_shape g :
  group1_ok g = true ->
  exists x ds layer,
    rev g = (x ++ chars "denselayer" ++ ds ++ chars "." ++ chars layer)%list /\
    free_of_newline x = true /\ ds <> [] /\ forallb is_digit ds = true /\
    In layer layers.
Proof.
  unfold group1_ok.
  destruct (strip_word layers g) as [[layer r]|] eqn:E1; [|discriminate].
  destruct (strip_prefix (rev (chars ".")) r) as [r'|] eqn:E2; [|discriminate].
  destruct (span_digits r') as [ds r''] eqn:E3.
  destruct ds as [|d ds]; [discriminate|].
  destruct (strip_prefix (rev (chars "denselayer")) r'') as [x|] eqn:E4;
    [|discriminate].
  intros Hx.
  apply strip_word_some in E1. destruct E1 as [Hlayer ->].
  apply strip_prefix_some in E2. subst r.
  apply span_digits_some in E3. destruct E3 as [-> Hd].
  apply strip_prefix_some in E4. subst r''.
  exists (rev x), (rev (d :: ds)), layer.
  split; [|split; [|split; [|split]]].
  - rewrite !rev_app_distr, !rev_involutive, <- !app_assoc. reflexivity.
  - unfold free_of_newline in *. now rewrite forallb_rev.
  - intros E. apply (f_equal (@List.length _)) in E.
    rewrite length_rev in E. discriminate E.
  - now rewrite forallb_rev.
  - exact Hlayer.
Qed.

Lemma match_reversed_sound r g1 g2 :
  match_reversed r = Some (g1, g2) ->
  exists x ds layer sub suffix,
    g1 = x ++ "denselayer" ++ ds ++ "." ++ layer /\
    g2 = sub ++ "." ++ suffix /\
    rev r = chars (g1 ++ "." ++ g2) /\
    free_of_newline (chars x) = true /\ ds <> "" /\
    forallb is_digit (chars ds) = true /\
    In layer layers /\ In sub subindices /\ In suffix suffixes.
Proof.
  unfold match_reversed.
  destruct (strip_word suffixes r) as [[suffix r1]|] eqn:E1; [|discriminate].
  destruct (strip_prefix (rev (chars ".")) r1) as [r2|] eqn:E2; [|discriminate].
  destruct (strip_word subindices r2) as [[sub r3]|] eqn:E3; [|discriminate].
  destruct (strip_prefix (rev (chars ".")) r3) as [g|] eqn:E4; [|discriminate].
  destruct (group1_ok g) eqn:E5; [|discriminate].
  intros H. inversion H; subst g1 g2. clear H.
  apply strip_word_some in E1. destruct E1 as [Hsuffix ->].
  apply strip_prefix_some in E2. subst r1.
  apply strip_word_some in E3. destruct E3 as [Hsub ->].
  apply strip_prefix_some in E4. subst r3.
  destruct (group1_ok_shape g E5) as [x [ds [layer [Hg [Hx [Hne [Hd Hlayer]]]]]]].
  exists (string_of_list_ascii x), (string_of_list_ascii ds), layer, sub, suffix.
  rewrite !chars_of_list.
  assert (Hg1 : string_of_list_ascii (rev g)
                = string_of_list_ascii x ++ "denselayer" ++
                  string_of_list_ascii ds ++ "." ++ layer).
  { apply chars_inj. rewrite chars_of_list, !chars_app, !chars_of_list.
    exact Hg. }
  split; [exact Hg1|]. split; [reflexivity|]. split.
  - rewrite !chars_app, chars_of_list.
    rewrite !rev_app_distr, !rev_involutive, <- !app_assoc. reflexivity.
  - repeat split; try assumption.
    intros E. apply Hne. apply (f_equal chars) in E.
    now rewrite chars_of_list in E.
Qed.

(** A match returned by the matcher is a match of the pattern. *)
Theorem pattern_match_sound key g1 g2 :
  pattern_match key = Some (g1, g2) -> matches key g1 g2.
Proof.
  unfold pattern_match.
  destruct (match_reversed (rev (chars key))) as [[h1 h2]|] eqn:E.
  - intros H; inversion H; subst h1 h2.
    destruct (match_reversed_sound _ _ _ E)
      as [x [ds [layer [sub [suffix [H1 [H2 [H3 H4]]]]]]]].
    exists x, ds, layer, sub, suffix, "".
    split; [exact H1|]. split; [exact H2|]. split.
    + apply chars_inj. rewrite rev_involutive in H3. rewrite H3.
      rewrite !chars_app. simpl. now rewrite !app_nil_r.
    + destruct H4 as [? [? [? [? [? ?]]]]]. repeat split; auto.
  - destruct (rev (chars key)) as [|c r'] eqn:Er; [discriminate|].
    destruct (Ascii.eqb_spec c newline) as [->|]; [|discriminate].
    intros E'.
    destruct (match_reversed_sound _ _ _ E')
      as [x [ds [layer [sub [suffix [H1 [H2 [H3 H4]]]]]]]].
    exists x, ds, layer, sub, suffix, (String newline "").
    split; [exact H1|]. split; [exact H2|]. split.
    + apply chars_inj. apply (f_equal (@rev _)) in Er.
      rewrite rev_involutive in Er. rewrite Er. simpl rev. rewrite H3.
      rewrite !chars_app. simpl. now rewrite <- !app_assoc.
    + destruct H4 as [? [? [? [? [? ?]]]]]. repeat split; auto.
Qed.

Lemma strip_suffix_found suffix l :
  In suffix suffixes ->
  strip_word suffixes (rev (chars suffix) ++ l)%list = Some (suffix, l).
Proof.
  unfold suffixes. simpl. intros [<-|[<-|[<-|[<-|[]]]]]; reflexivity.
Qed.

Lemma strip_subindex_found sub l :
  In sub subindices ->
  strip_word subindices (rev (chars sub) ++ l)%list = Some (sub, l).
Proof.
  unfold subindices. simpl. intros [<-|[<-|[]]]; reflexivity.
Qed.

Lemma strip_layer_found layer l :
  In layer layers ->
  strip_word layers (rev (chars layer) ++ l)%list = Some (layer, l).
Proof.
  unfold layers. simpl. intros [<-|[<-|[<-|[]]]]; reflexivity.
Qed.

Lemma span_digits_before_denselayer ds l :
  forallb is_digit ds = true ->
  span_digits (ds ++ rev (chars "denselayer") ++ l)%list
  = (ds, (rev (chars "denselayer") ++ l)%list).
Proof.
  intros H. exact (span_digits_app ds "r"%char _ H eq_refl).
Qed.

Lemma group1_ok_complete xs ds layer :
  free_of_newline xs = true -> ds <> [] -> forallb is_digit ds = true ->
  In layer layers ->
  group1_ok (rev (chars layer) ++ rev (chars ".") ++ rev ds ++
             rev (chars "denselayer") ++ rev xs)%list = true.
Proof.
  intros Hx Hne Hd Hlayer. unfold group1_ok.
  rewrite (strip_layer_found _ _ Hlayer), strip_prefix_app.
  rewrite span_digits_before_denselayer by now rewrite forallb_rev.
  destruct (rev ds) as [|d ds'] eqn:E.
  - exfalso. apply Hne. apply (f_equal (@rev _)) in E.
    now rewrite rev_involutive in E.
  - rewrite strip_prefix_app. unfold free_of_newline in *.
    now rewrite forallb_rev.
Qed.

Lemma match_reversed_complete xs ds layer sub suffix :
  free_of_newline xs = true -> ds <> [] -> forallb is_digit ds = true ->
  In layer layers -> In sub subindices -> In suffix suffixes ->
  match_reversed (rev (chars suffix) ++ rev (chars ".") ++ rev (chars sub) ++
                  rev (chars ".") ++ rev (chars layer) ++ rev (chars ".") ++
                  rev ds ++ rev (chars "denselayer") ++ rev xs)%list
  = Some (string_of_list_ascii
            (xs ++ chars "denselayer" ++ ds ++ chars "." ++ chars layer),
          sub ++ "." ++ suffix).
Proof.
  intros Hx Hne Hd Hlayer Hsub Hsuffix. unfold match_reversed.
  rewrite (strip_suffix_found _ _ Hsuffix), strip_prefix_app.
  rewrite (strip_subindex_found _ _ Hsub), strip_prefix_app.
  rewrite (group1_ok_complete xs ds layer Hx Hne Hd Hlayer).
  do 2 f_equal. f_equal.
  rewrite !rev_app_distr, !rev_involutive, <- !app_assoc. reflexivity.
Qed.

(** Every match of the pattern is found, with its groups. *)
Theorem pattern_match_complete key g1 g2 :
  matches key g1 g2 -> pattern_match key = Some (g1, g2).
Proof.
  intros [x [ds [layer [sub [suffix [eol H]]]]]].
  destruct H as [H1 [H2 [H3 [Hx [Hne [Hd [Hlayer [Hsub [Hsuffix Heol]]]]]]]]].
  assert (Hne' : chars ds <> []).
  { intros E. apply Hne. apply chars_inj. exact E. }
  pose proof (match_reversed_complete (chars x) (chars ds) layer sub suffix
                Hx Hne' Hd Hlayer Hsub Hsuffix) as Hm.
  assert (Hg1 : string_of_list_ascii
                  (chars x ++ chars "denselayer" ++ chars ds ++ chars "." ++
                   chars layer) = g1).
  { apply chars_inj. rewrite chars_of_list, H1, !chars_app. reflexivity. }
  rewrite Hg1, <- H2 in Hm.
  assert (Hrev : rev (chars (g1 ++ "." ++ g2))
                 = (rev (chars suffix) ++ rev (chars ".") ++ rev (chars sub) ++
                    rev (chars ".") ++ rev (chars layer) ++ rev (chars ".") ++
                    rev (chars ds) ++ rev (chars "denselayer") ++
                    rev (chars x))%list).
  { rewrite H1, H2, !chars_app, !rev_app_distr, <- !app_assoc. reflexivity. }
  unfold pattern_match. rewrite H3.
  destruct Heol as [->| ->].
  - replace (g1 ++ "." ++ g2 ++ "") with (g1 ++ "." ++ g2)
      by (apply chars_inj; rewrite !chars_app; simpl; now rewrite !app_nil_r).
    now rewrite Hrev, Hm.
  - replace (chars (g1 ++ "." ++ g2 ++ String newline ""))
      with (chars (g1 ++ "." ++ g2) ++ [newline])%list
      by (rewrite !chars_app; simpl; now rewrite <- !app_assoc).
    rewrite rev_app_distr. cbn [rev app].
    rewrite Hrev.
    replace (match_reversed (newline :: _)) with (@None (string * string)).
    + rewrite Ascii.eqb_refl. exact Hm.
    + symmetry. unfold match_reversed.
      destruct Hsuffix as [<-|[<-|[<-|[<-|[]]]]]; reflexivity.
Qed.

(** The matcher agrees with the pattern. *)
Theorem pattern_match_spec key g1 g2 :
  pattern_match key = Some (g1, g2) <-> matches key g1 g2.
Proof.
  split; [apply pattern_match_sound | apply pattern_match_complete].
Qed.

End KeyPatternFacts.

(** ** Dictionaries *)

Module DictFacts.
Import Dict.

Section Facts.
Context {V : Type}.
Implicit Types (d : dict V) (k : string) (v : V).

Lemma keys_app d1 d2 : keys (d1 ++ d2)%list = (keys d1 ++ keys d2)%list.
Proof. apply map_app. Qed.

Lemma get_none_iff k d : get k d = None <-> ~ In k (keys d).
Proof.
  induction d as [|[k' v'] d IH]; simpl.
  - tauto.
  - destruct (String.eqb_spec k k') as [->|Hne].
    + split; [discriminate | intros H; exfalso; apply H; now left].
    + rewrite IH. split.
      * intros H [E|E]; [congruence | tauto].
      * intros H E. apply H. now right.
Qed.

Lemma mem_true_iff k d : mem k d = true <-> In k (keys d).
Proof.
  unfold mem. destruct (get k d) eqn:E.
  - split; [intros _ | reflexivity].
    destruct (in_dec string_dec k (keys d)) as [Hin|Hout]; [assumption|].
    apply get_none_iff in Hout. congruence.
  - split; [discriminate|]. intros Hin. apply get_none_iff in E. contradiction.
Qed.

Lemma get_head k v d : get k ((k, v) :: d) = Some v.
Proof. simpl. now rewrite String.eqb_refl. Qed.

Lemma get_in k v d : wf d -> In (k, v) d -> get k d = Some v.
Proof.
  unfold wf. induction d as [|[k' v'] d IH]; simpl; [tauto|].
  intros Hnd [E|Hin].
  - inversion E; subst. now rewrite String.eqb_refl.
  - inversion Hnd as [|? ? Hout Hnd']; subst.
    destruct (String.eqb_spec k k') as [->|Hne].
    + exfalso. apply Hout. change k' with (fst (k', v)). now apply in_map.
    + now apply IH.
Qed.

Lemma get_some_in k v d : get k d = Some v -> In (k, v) d.
Proof.
  induction d as [|[k' v'] d IH]; simpl; [discriminate|].
  destruct (String.eqb_spec k k') as [->|Hne].
  - intros E; inversion E; now left.
  - intros E; right; now apply IH.
Qed.

Lemma set_fresh k v d : ~ In k (keys d) -> set k v d = (d ++ [(k, v)])%list.
Proof.
  induction d as [|[k' v'] d IH]; simpl; [reflexivity|].
  intros H. destruct (String.eqb_spec k k') as [->|Hne].
  - exfalso. apply H. now left.
  - rewrite IH; [reflexivity|]. intros E. apply H. now right.
Qed.

Lemma keys_set k v d :
  keys (set k v d) = if mem k d then keys d else (keys d ++ [k])%list.
Proof.
  induction d as [|[k' v'] d IH]; simpl; [reflexivity|].
  unfold mem in *; simpl.
  destruct (String.eqb_spec k k') as [->|Hne]; simpl; [reflexivity|].
  rewrite IH. now destruct (get k d).
Qed.

Lemma in_keys_set k k' v d :
  In k' (keys (set k v d)) <-> k' = k \/ In k' (keys d).
Proof.
  rewrite keys_set. destruct (mem k d) eqn:E.
  - apply mem_true_iff in E. split; [tauto|]. intros [->|H]; assumption.
  - rewrite in_app_iff; simpl. split; [intros [H|[H|[]]] | intros [H|H]]; auto.
Qed.

Lemma get_set_same k v d : get k (set k v d) = Some v.
Proof.
  induction d as [|[k' v'] d IH]; simpl.
  - now rewrite String.eqb_refl.
  - destruct (String.eqb_spec k k') as [->|Hne]; simpl.
    + now rewrite String.eqb_refl.
    + destruct (String.eqb_spec k k'); [contradiction | exact IH].
Qed.

Lemma get_set_other k k' v d : k' <> k -> get k' (set k v d) = get k' d.
Proof.
  intros Hne. induction d as [|[k0 v0] d IH]; simpl.
  - destruct (String.eqb_spec k' k); [contradiction | reflexivity].
  - destruct (String.eqb_spec k k0) as [->|Hne0]; simpl.
    + destruct (String.eqb_spec k' k0); [contradiction | reflexivity].
    + now rewrite IH.
Qed.

Lemma wf_set k v d : wf d -> wf (set k v d).
Proof.
  unfold wf. intros H. rewrite keys_set. destruct (mem k d) eqn:E; [assumption|].
  apply NoDup_app; [exact H | repeat constructor; simpl; tauto |].
  intros x Hx [<-|[]].
  apply mem_true_iff in Hx. congruence.
Qed.

Lemma remove_app k d1 d2 :
  remove k (d1 ++ d2)%list = (remove k d1 ++ remove k d2)%list.
Proof. apply filter_app. Qed.

Lemma remove_absent k d : ~ In k (keys d) -> remove k d = d.
Proof.
  induction d as [|[k' v'] d IH]; simpl; [reflexivity|].
  intros H. destruct (String.eqb_spec k k') as [->|Hne]; simpl.
  - exfalso. apply H. now left.
  - rewrite IH; [reflexivity|]. intros E. apply H. now right.
Qed.

Lemma in_keys_remove k k' d :
  In k' (keys (remove k d)) <-> k' <> k /\ In k' (keys d).
Proof.
  unfold keys, remove. rewrite !in_map_iff. split.
  - intros [[k0 v0] [E Hin]]. simpl in E; subst k0.
    apply filter_In in Hin. destruct Hin as [Hin Hb]. simpl in Hb.
    split.
    + intros ->. now rewrite String.eqb_refl in Hb.
    + exists (k', v0). now split.
  - intros [Hne [[k0 v0] [E Hin]]]. simpl in E; subst k0.
    exists (k', v0). split; [reflexivity|].
    apply filter_In. split; [assumption|]. simpl.
    destruct (String.eqb_spec k k'); [congruence | reflexivity].
Qed.

Lemma wf_remove k d : wf d -> wf (remove k d).
Proof.
  unfold wf. induction d as [|[k' v'] d IH]; simpl; [trivial|].
  intros Hnd. inversion Hnd as [|? ? Hout Hnd']; subst.
  destruct (String.eqb_spec k k'); simpl; [now apply IH|].
  constructor; [|now apply IH].
  intros Hin. apply in_keys_remove in Hin. tauto.
Qed.

Lemma get_remove_other k k' d : k' <> k -> get k' (remove k d) = get k' d.
Proof.
  intros Hne. induction d as [|[k0 v0] d IH]; simpl; [reflexivity|].
  destruct (String.eqb_spec k k0) as [->|Hne0]; simpl.
  - destruct (String.eqb_spec k' k0); [contradiction | exact IH].
  - now rewrite IH.
Qed.

End Facts.

End DictFacts.

(** ** The remapping loop *)

Module RemapFacts.
Import Dict DictFacts Remap.

Lemma slice_from_length n s :
  String.length (slice_from n s) = String.length s - n.
Proof.
  revert s. induction n as [|n IH]; intros s; simpl.
  - now rewrite Nat.sub_0_r.
  - destruct s; simpl; [reflexivity | apply IH].
Qed.

Lemma slice_from_split n s :
  exists p, s = p ++ slice_from n s /\ String.length p = Nat.min n (String.length s).
Proof.
  revert s. induction n as [|n IH]; intros s.
  - exists "". simpl. split; reflexivity.
  - destruct s as [|c s].
    + exists "". split; reflexivity.
    + destruct (IH s) as [p [E L]].
      exists (String c p). simpl. split; [now rewrite <- E | now rewrite L].
Qed.

Section Loop.
Context {T : Type}.
Implicit Types (d : dict T) (k : string).

Lemma remap_step_eq key d :
  remap_step key d =
  match get key d with
  | Some t => del key (set (new_key key) t d)
  | None => None
  end.
Proof.
  unfold remap_step, remove_data_parallel. destruct (get key d); [|reflexivity].
  now rewrite orb_true_r.
Qed.

Lemma remap_loop_app ks1 ks2 d :
  remap_loop (ks1 ++ ks2) d =
  match remap_loop ks1 d with
  | Some d' => remap_loop ks2 d'
  | None => None
  end.
Proof.
  revert d. induction ks1 as [|k ks1 IH]; intros d; simpl; [reflexivity|].
  destruct (remap_step k d); [apply IH | reflexivity].
Qed.

(** A step on a key that is present succeeds, removes that key and adds its
    new name. *)
Lemma remap_step_present key d :
  In key (keys d) ->
  exists t, get key d = Some t /\
            remap_step key d = Some (remove key (set (new_key key) t d)).
Proof.
  intros Hin. rewrite remap_step_eq.
  destruct (get key d) as [t|] eqn:E.
  - exists t. split; [reflexivity|]. unfold del.
    replace (mem key (set (new_key key) t d)) with true; [reflexivity|].
    symmetry. apply mem_true_iff, in_keys_set. now right.
  - apply get_none_iff in E. contradiction.
Qed.

Lemma remap_step_keys key d d' :
  remap_step key d = Some d' ->
  forall k, In k (keys d') <-> k <> key /\ (k = new_key key \/ In k (keys d)).
Proof.
  rewrite remap_step_eq. destruct (get key d) as [t|]; [|discriminate].
  unfold del. destruct (mem key _); [|discriminate].
  intros E k. inversion E; subst d'.
  now rewrite in_keys_remove, in_keys_set.
Qed.

Lemma remap_step_wf key d d' : wf d -> remap_step key d = Some d' -> wf d'.
Proof.
  rewrite remap_step_eq. destruct (get key d) as [t|]; [|discriminate].
  unfold del. destruct (mem key _); [|discriminate].
  intros Hwf E. inversion E. now apply wf_remove, wf_set.
Qed.

(** The loop never raises on a snapshot of distinct keys that are all still
    present: only the key being processed is deleted. *)
Lemma remap_loop_total ks d :
  NoDup ks -> (forall k, In k ks -> In k (keys d)) -> wf d ->
  exists d', remap_loop ks d = Some d' /\ wf d'.
Proof.
  revert d. induction ks as [|key ks IH]; intros d Hnd Hin Hwf; simpl.
  - now exists d.
  - destruct (remap_step_present key d) as [t [_ E]]; [apply Hin; now left|].
    rewrite E. inversion Hnd as [|? ? Hout Hnd']; subst.
    apply IH; [assumption | | eapply remap_step_wf; eassumption].
    intros k Hk. apply (remap_step_keys _ _ _ E). split.
    + intros ->. contradiction.
    + right. apply Hin. now right.
Qed.

Lemma remap_total d : wf d -> exists d', remap d = Some d' /\ wf d'.
Proof. intros Hwf. apply remap_loop_total; auto. Qed.

(** Every key left by the loop is the new name of a snapshot key, or a key
    that was there before and is not in the snapshot. *)
Lemma remap_loop_keys ks d d' :
  remap_loop ks d = Some d' ->
  forall k, In k (keys d') ->
    (exists k0, In k0 ks /\ k = new_key k0) \/ (In k (keys d) /\ ~ In k ks).
Proof.
  revert d. induction ks as [|key ks IH]; intros d E k Hk; simpl in E.
  - inversion E; subst. right. split; [assumption | intros []].
  - destruct (remap_step key d) as [d1|] eqn:E1; [|discriminate].
    destruct (IH _ E _ Hk) as [[k0 [Hk0 ->]] | [Hin Hout]].
    + left. exists k0. split; [now right | reflexivity].
    + apply (remap_step_keys _ _ _ E1) in Hin. destruct Hin as [Hne [->|Hin]].
      * left. exists key. split; [now left | reflexivity].
      * right. split; [assumption|]. intros [->|H]; [congruence | contradiction].
Qed.

(** The loop on keys whose new names are fresh: the processed entries move,
    in order, to the end of the mapping under their new names. *)
Lemma remap_loop_fresh (all : dict T) :
  wf all ->
  NoDup (map new_key (keys all)) ->
  (forall k, In k (keys all) -> ~ In (new_key k) (keys all)) ->
  forall rest done,
    all = (done ++ rest)%list ->
    remap_loop (keys rest) (rest ++ map transformed done)%list
    = Some (map transformed all).
Proof.
  intros Hwf Hinj Hfresh rest.
  induction rest as [|[k v] rest IH]; intros done Hall.
  - simpl. rewrite app_nil_r in Hall. now subst.
  - assert (Hk : In k (keys all)).
    { subst all. rewrite keys_app, in_app_iff. right. now left. }
    assert (Hkdone : ~ In k (keys (map transformed done))).
    { intros Hin. unfold keys in Hin. rewrite map_map in Hin.
      apply in_map_iff in Hin. destruct Hin as [[k0 v0] [E Hin0]]. simpl in E.
      apply (Hfresh k0).
      - subst all. rewrite keys_app, in_app_iff. left.
        change k0 with (fst (k0, v0)). now apply in_map.
      - now rewrite E. }
    assert (Hkrest : ~ In k (keys rest)).
    { unfold wf in Hwf. subst all. rewrite keys_app in Hwf. simpl in Hwf.
      apply NoDup_remove_2 in Hwf. intros Hin. apply Hwf.
      rewrite in_app_iff. now right. }
    assert (Hnew : ~ In (new_key k)
                     (keys (((k, v) :: rest) ++ map transformed done)%list)).
    { rewrite keys_app, in_app_iff. intros [Hin|Hin].
      - apply (Hfresh k Hk). subst all. rewrite keys_app, in_app_iff. now right.
      - subst all. rewrite keys_app, map_app in Hinj. simpl in Hinj.
        apply NoDup_remove_2 in Hinj. apply Hinj. rewrite in_app_iff. left.
        unfold keys in Hin. rewrite map_map in Hin. simpl in Hin.
        unfold keys. now rewrite map_map. }
    change (keys ((k, v) :: rest)) with (k :: keys rest).
    cbn [remap_loop]. rewrite remap_step_eq.
    rewrite <- app_comm_cons. rewrite get_head.
    rewrite app_comm_cons. rewrite (set_fresh _ _ _ Hnew).
    unfold del.
    replace (mem k _) with true
      by (symmetry; apply mem_true_iff; rewrite !keys_app; simpl; now left).
    rewrite <- !app_comm_cons. unfold remove at 1. cbn [filter fst].
    rewrite String.eqb_refl. cbn [negb].
    change (filter (fun e : string * T => negb (k =? fst e)) ?l) with (remove k l).
    rewrite !remove_app.
    rewrite (remove_absent k rest Hkrest).
    rewrite (remove_absent k (map transformed done) Hkdone).
    rewrite (remove_absent k [(new_key k, v)]).
    2:{ simpl. intros [E|[]]. apply (Hfresh k Hk). now rewrite E. }
    specialize (IH (done ++ [(k, v)])%list).
    rewrite map_app in IH. simpl in IH. rewrite <- !app_assoc in IH.
    rewrite <- app_assoc. apply IH. exact Hall.
Qed.

Lemma set_app_skip k (v : T) l acc :
  ~ In k (keys l) -> set k v (l ++ acc)%list = (l ++ set k v acc)%list.
Proof.
  induction l as [|[k' v'] l IH]; simpl; [reflexivity|].
  intros H. destruct (String.eqb_spec k k') as [->|Hne].
  - exfalso. apply H. now left.
  - rewrite IH; [reflexivity|]. intros Hin. apply H. now right.
Qed.

Lemma get_app k d1 d2 :
  get k (d1 ++ d2)%list
  = match get k d1 with Some v => Some v | None => get k d2 end.
Proof.
  induction d1 as [|[k' v'] d1 IH]; simpl; [reflexivity|].
  destruct (k =? k'); [reflexivity | exact IH].
Qed.

(** The loop on keys none of whose new names is a key still to be processed:
    the processed entries leave the front of the mapping and are written,
    one by one, into the part behind it. *)
Lemma remap_loop_renamed (rest acc : dict T) :
  NoDup (keys rest) ->
  (forall k, In k (keys rest) -> ~ In (new_key k) (keys rest)) ->
  (forall k, In k (keys rest) -> ~ In k (keys acc)) ->
  remap_loop (keys rest) (rest ++ acc)%list
  = Some (fold_left rename_into rest acc).
Proof.
  revert acc. induction rest as [|[k v] rest IH]; intros acc Hnd Hfresh Hacc.
  - reflexivity.
  - change (keys ((k, v) :: rest)) with (k :: keys rest) in *.
    inversion Hnd as [|? ? Hout Hnd']; subst.
    assert (Hnk : ~ In (new_key k) (k :: keys rest))
      by (apply Hfresh; now left).
    cbn [remap_loop]. rewrite remap_step_eq.
    rewrite <- app_comm_cons, get_head.
    rewrite app_comm_cons, set_app_skip by exact Hnk.
    unfold del.
    replace (mem k _) with true
      by (symmetry; apply mem_true_iff; rewrite keys_app; simpl; now left).
    rewrite remove_app. simpl remove at 1. rewrite String.eqb_refl. cbn [negb].
    change (filter (fun e : string * T => negb (k =? fst e)) rest)
      with (remove k rest).
    rewrite (remove_absent k rest Hout).
    rewrite (remove_absent k (set (new_key k) v acc)).
    2:{ rewrite in_keys_set. intros [E|Hin].
        - apply Hnk. left. now symmetry.
        - apply (Hacc k); [now left | assumption]. }
    apply IH.
    + assumption.
    + intros k' Hk' Hin. apply (Hfresh k'); [now right | now right].
    + intros k' Hk'. rewrite in_keys_set. intros [->|Hin].
      * apply Hnk. now right.
      * apply (Hacc k'); [now right | assumption].
Qed.

(** Looking a name up in the renamed entries gives the tensor of the last
    entry renamed to it. *)
Lemma get_fold_rename_into (l acc : dict T) k' :
  get k' (fold_left rename_into l acc)
  = match get k' (rev (map transformed l)) with
    | Some v => Some v
    | None => get k' acc
    end.
Proof.
  revert acc. induction l as [|[k v] l IH]; intros acc; simpl; [reflexivity|].
  rewrite IH, get_app. destruct (get k' (rev (map transformed l))); [reflexivity|].
  unfold rename_into, transformed; simpl.
  destruct (String.eqb_spec k' (new_key k)) as [->|Hne].
  - apply get_set_same.
  - now apply get_set_other.
Qed.

(** With pairwise distinct new names nothing is replaced. *)
Lemma fold_rename_into_distinct (l acc : dict T) :
  NoDup (map new_key (keys l)) ->
  (forall k, In k (keys l) -> ~ In (new_key k) (keys acc)) ->
  fold_left rename_into l acc = (acc ++ map transformed l)%list.
Proof.
  revert acc. induction l as [|[k v] l IH]; intros acc Hnd Hacc; simpl.
  - now rewrite app_nil_r.
  - simpl in Hnd. inversion Hnd as [|? ? Hout Hnd']; subst.
    unfold rename_into at 2; simpl.
    rewrite set_fresh by (apply Hacc; now left).
    rewrite IH; [now rewrite <- app_assoc | assumption |].
    intros k' Hk'. rewrite keys_app, in_app_iff. simpl.
    intros [Hin|[E|[]]].
    + apply (Hacc k'); [now right | assumption].
    + apply Hout. rewrite E. now apply in_map.
Qed.

End Loop.

End RemapFacts.

(** ** Claims on the checkpoint key remapping *)

Section RemapClaims.
Import Dict DictFacts Remap RemapFacts Samples.

(** C2, as stated, fails: when the new name of one key is another key of the
    mapping, the insertion overwrites the tensor of that other key before it
    is processed.  Here the tensor 2 is lost and ["fc.bias"] ends up with
    tensor 1. *)
Lemma remap_image_counterexample :
  wf chain_checkpoint /\
  remap chain_checkpoint = Some [("fc.bias", 1)] /\
  renamed_dict chain_checkpoint = [("module.fc.bias", 1); ("fc.bias", 2)] /\
  ~ is_image chain_checkpoint [("fc.bias", 1)].
Proof.
  split; [|split; [|split]].
  - unfold wf, chain_checkpoint; simpl.
    repeat constructor; simpl; intuition discriminate.
  - reflexivity.
  - reflexivity.
  - intros H. destruct (H "fc.bias" 2) as [_ H2].
    assert (E : get "fc.bias" [("fc.bias", 1)] = Some 2).
    { apply H2. exists "module.fc.bias". split; [|reflexivity].
      right. now left. }
    discriminate E.
Qed.

(** The one key that is its own new name is the empty one; its entry is
    deleted although the key was not modified. *)
Example remap_empty_key : remap [("", 1)] = Some [].
Proof. reflexivity. Qed.

(** C2 (amended): when no new name is itself a key of the mapping, the loop
    ends with exactly the dict that [{new_key(k): v}] over the original
    entries denotes: each new name carries the tensor of the last original
    key renamed to it, and with pairwise distinct new names the result is
    the original tensors in their order, each under its new name. *)
Theorem remap_image_when_fresh {T} (d : dict T) :
  wf d ->
  (forall k, In k (keys d) -> ~ In (new_key k) (keys d)) ->
  remap d = Some (renamed_dict d) /\
  (forall k', get k' (renamed_dict d) = get k' (rev (map transformed d))) /\
  (NoDup (map new_key (keys d)) ->
   renamed_dict d = map transformed d /\ is_image d (map transformed d)).
Proof.
  intros Hwf Hfresh. split; [|split].
  - unfold remap.
    generalize (remap_loop_renamed d [] Hwf Hfresh (fun _ _ H => H)).
    now rewrite app_nil_r.
  - intros k'. unfold renamed_dict.
    rewrite get_fold_rename_into. now destruct (get k' _).
  - intros Hinj. split.
    + unfold renamed_dict.
      now rewrite fold_rename_into_distinct.
    + intros k' v. split.
      * intros E. apply get_some_in in E. apply in_map_iff in E.
        destruct E as [[k v0] [E Hin]]. unfold transformed in E; simpl in E.
        inversion E; subst. now exists k.
      * intros [k [Hin <-]]. apply get_in.
        -- unfold wf, keys. rewrite map_map. simpl.
           unfold keys in Hinj. now rewrite map_map in Hinj.
        -- change (new_key k, v) with (transformed (k, v)). now apply in_map.
Qed.

Lemma remap_image_when_fresh_witness :
  wf colliding_checkpoint /\
  (forall k, In k (keys colliding_checkpoint) ->
             ~ In (new_key k) (keys colliding_checkpoint)) /\
  remap colliding_checkpoint = Some [("a", 2)].
Proof.
  assert (H1 : wf colliding_checkpoint).
  { unfold wf; simpl. repeat constructor; simpl; intuition discriminate. }
  assert (H2 : forall k, In k (keys colliding_checkpoint) ->
                         ~ In (new_key k) (keys colliding_checkpoint)).
  { intros k [<-|[<-|[]]]; vm_compute; intuition discriminate. }
  split; [exact H1 | split; [exact H2 |]].
  exact (proj1 (remap_image_when_fresh colliding_checkpoint H1 H2)).
Defined.

(** C3: the two keys of the specification's scenarios.  Rule 1 renames the
    first and leaves the second; the strip then takes seven characters off
    the renamed key. *)
Theorem new_key_scenarios :
  rename "module.features.denselayer1.norm.1.weight"
    = "module.features.denselayer1.norm1.weight" /\
  new_key "module.features.denselayer1.norm.1.weight"
    = slice_from 7 "module.features.denselayer1.norm1.weight" /\
  new_key "module.features.denselayer1.norm.1.weight"
    = "features.denselayer1.norm1.weight" /\
  KeyPattern.pattern_match "module.classifier.0.weight" = None /\
  rename "module.classifier.0.weight" = "module.classifier.0.weight" /\
  new_key "module.classifier.0.weight" = "classifier.0.weight".
Proof. repeat split; reflexivity. Qed.

(** C4, as stated, fails: a second application strips seven more
    characters. *)
Lemma remap_twice_counterexample :
  remap [("module.classifier.0.weight", 1)] = Some [("classifier.0.weight", 1)] /\
  remap [("classifier.0.weight", 1)] = Some [("ier.0.weight", 1)] /\
  remap [("classifier.0.weight", 1)] <> remap [("module.classifier.0.weight", 1)].
Proof.
  split; [reflexivity | split; [reflexivity | vm_compute; discriminate]].
Qed.

(** C4 (amended): on a remapped mapping that is not empty the second
    application runs to the end and is not a no-op: every key it leaves is a
    key of the once-remapped mapping renamed by rule 1 and stripped of seven
    more characters, and at least one key of the once-remapped mapping is
    gone. *)
Theorem remap_twice_changes {T} (d d1 : dict T) :
  wf d ->
  remap d = Some d1 ->
  d1 <> [] ->
  exists d2,
    remap d1 = Some d2 /\
    (forall k2, In k2 (keys d2) ->
       exists k1, In k1 (keys d1) /\ k2 = slice_from 7 (rename k1)) /\
    (exists k, In k (keys d1) /\ ~ In k (keys d2)).
Proof.
  intros Hwf E1 Hne.
  destruct (remap_total d Hwf) as [d1' [E1' Hwf1]].
  rewrite E1 in E1'. inversion E1'; subst d1'. clear E1'.
  destruct (remap_total d1 Hwf1) as [d2 [E2 _]].
  exists d2. split; [exact E2|]. split.
  - intros k2 Hk2.
    destruct (remap_loop_keys _ _ _ E2 k2 Hk2) as [[k0 [Hk0 ->]] | [Hin Hout]].
    + now exists k0.
    + contradiction.
  - destruct (exists_last Hne) as [l [[k v] ->]].
    exists k. split.
    + rewrite keys_app, in_app_iff. right. now left.
    + unfold remap in E2. rewrite keys_app in E2. simpl in E2.
      rewrite remap_loop_app in E2.
      destruct (remap_loop (keys l) _) as [dm|]; [|discriminate].
      simpl in E2. destruct (remap_step k dm) as [d2'|] eqn:Es; [|discriminate].
      inversion E2; subst d2'. intros Hin.
      apply (remap_step_keys _ _ _ Es) in Hin. now destruct Hin.
Qed.

Lemma remap_twice_changes_witness :
  wf [("module.classifier.0.weight", 1)] /\
  exists d2,
    remap [("classifier.0.weight", 1)] = Some d2 /\
    (forall k2, In k2 (keys d2) ->
       exists k1, In k1 (keys [("classifier.0.weight", 1)]) /\
                  k2 = slice_from 7 (rename k1)) /\
    (exists k, In k (keys [("classifier.0.weight", 1)]) /\ ~ In k (keys d2)).
Proof.
  assert (H : wf [("module.classifier.0.weight", 1)]).
  { unfold wf; simpl. repeat constructor; simpl; tauto. }
  split; [exact H|].
  apply (remap_twice_changes [("module.classifier.0.weight", 1)]
                             [("classifier.0.weight", 1)] H).
  - reflexivity.
  - discriminate.
Defined.

(** C9: the strip does not look at the key.  Whatever the key, the new name
    is the renamed key without its first seven characters (without all of
    them when it has fewer); a key without the wrapper prefix loses the
    start of its own name. *)
Theorem strip_is_unconditional :
  (forall key, new_key key = slice_from 7 (rename key)) /\
  (forall key, exists p,
      rename key = p ++ new_key key /\
      String.length p = Nat.min 7 (String.length (rename key))) /\
  (forall key, String.length (new_key key) = String.length (rename key) - 7) /\
  rename "classifier.0.weight" = "classifier.0.weight" /\
  new_key "classifier.0.weight" = "ier.0.weight".
Proof.
  split; [reflexivity|]. split; [|split; [|split; reflexivity]].
  - intros key. apply slice_from_split.
  - intros key. apply slice_from_length.
Qed.

End RemapClaims.

(** ** Claims on the saved model *)

Section TorchClaims.
Import Dict Eff Torch Samples.

(** C5, as stated, fails: the module that is saved is [model_ft.densenet121],
    and the replaced head is its [classifier] child; the weight of the new
    linear layer is in the state dict of the saved module. *)
Lemma saved_artifact_counterexample :
  exists m,
    fs (snd (convert_checkpoint names_agree (Some sample_weights) empty_world))
       SAVED_PATH
    = Some (Pickled_module m) /\
    getattr "classifier" m = Some (Sequential [Linear 1024 14 30 31; Sigmoid]) /\
    get "classifier.0.weight" (state_dict "" m) = Some 30 /\
    ~ excludes_head m.
Proof.
  eexists. split; [reflexivity|]. split; [reflexivity|]. split; [reflexivity|].
  simpl. intros H.
  apply (H "classifier" (Sequential [Linear 1024 14 30 31; Sigmoid])).
  - right. now left.
  - now exists 1024, 14, 30, 31.
Qed.

(** C5 (amended): whenever the procedure runs to its end, the file at the
    output path holds the [densenet121] submodule of the model as a whole,
    that is the feature extractor together with the two-stage head (a
    1024-to-14 linear layer, then a sigmoid); only the outer wrapper is left
    out.  When it stops with an error, nothing is written there. *)
Theorem saved_artifact_includes_head {tensor}
    (accepts : module tensor -> dict tensor -> bool)
    (hub : option (weights tensor)) (world0 : world tensor) :
  match convert_checkpoint accepts hub world0 with
  | (Some _, world1) =>
      exists feats hw hb,
        fs world1 SAVED_PATH
        = Some (Pickled_module
                  (Composite [("features", Features feats);
                              ("classifier",
                               Sequential [Linear 1024 N_CLASSES hw hb; Sigmoid])]))
  | (None, world1) => fs world1 SAVED_PATH = fs world0 SAVED_PATH
  end.
Proof.
  unfold convert_checkpoint, bind, lift, isfile, ret.
  destruct hub as [w|]; [|reflexivity].
  cbn [DenseNet121 torchvision_densenet121 getattr get String.eqb Ascii.eqb
       Bool.eqb in_features_of setattr set].
  destruct (fs world0 CKPT_PATH) as [f|] eqn:Ef; cbn [is_some].
  - unfold print at 1. cbn [fs stdout writable].
    unfold torch_load_entry. cbn [fs]. rewrite Ef.
    destruct f as [entries|m]; [|reflexivity].
    destruct (get "state_dict" entries) as [sd|]; [|reflexivity].
    destruct (Remap.remap sd) as [sd'|]; [|reflexivity].
    unfold load_state_dict.
    destruct (accepts _ sd'); [|reflexivity].
    cbn -[SAVED_PATH]. unfold torch_save. cbn -[SAVED_PATH].
    destruct (writable world0 SAVED_PATH); unfold print;
      cbn -[SAVED_PATH];
      [rewrite String.eqb_refl; eauto | reflexivity].
  - cbn -[SAVED_PATH]. unfold torch_save. cbn -[SAVED_PATH].
    destruct (writable world0 SAVED_PATH); unfold print;
      cbn -[SAVED_PATH];
      [rewrite String.eqb_refl; eauto | reflexivity].
Qed.




End TorchClaims.

(** ** Tables and the library split *)

Module SplitFacts.
Import Frame Sklearn Eff.

Lemma in_firstn {A} n (l : list A) a : In a (firstn n l) -> In a l.
Proof.
  intros H. rewrite <- (firstn_skipn n l). apply in_or_app. now left.
Qed.

Lemma in_skipn {A} n (l : list A) a : In a (skipn n l) -> In a l.
Proof.
  intros H. rewrite <- (firstn_skipn n l). apply in_or_app. now right.
Qed.

Lemma flat_map_row_at_seq {A} (l pre : list A) :
  flat_map (row_at (pre ++ l)) (seq (List.length pre) (List.length l)) = l.
Proof.
  revert pre. induction l as [|a l IH]; intros pre; simpl; [reflexivity|].
  unfold row_at at 1. rewrite nth_error_app2 by lia. rewrite Nat.sub_diag. simpl.
  f_equal. specialize (IH (pre ++ [a])%list).
  rewrite <- app_assoc, length_app, Nat.add_1_r in IH. exact IH.
Qed.

Lemma length_flat_map_row_at {A} (l : list A) (ps : list nat) :
  (forall i, In i ps -> i < List.length l) ->
  List.length (flat_map (row_at l) ps) = List.length ps.
Proof.
  induction ps as [|i ps IH]; intros H; simpl; [reflexivity|].
  rewrite length_app, IH by (intros; apply H; now right).
  unfold row_at. destruct (nth_error l i) eqn:E; [reflexivity|].
  apply nth_error_None in E. specialize (H i (or_introl eq_refl)). lia.
Qed.

Lemma length_flat_map_row_at_le {A} (l : list A) (ps : list nat) :
  List.length (flat_map (row_at l) ps) <= List.length ps.
Proof.
  induction ps as [|i ps IH]; simpl; [lia|].
  rewrite length_app. unfold row_at at 1.
  destruct (nth_error l i); cbn [List.length]; lia.
Qed.

Lemma iloc_permutation ps df :
  Permutation ps (seq 0 (shape0 df)) ->
  Permutation (rows (iloc ps df)) (rows df).
Proof.
  intros H. unfold iloc; simpl.
  rewrite (Permutation_flat_map (row_at (rows df)) H).
  unfold shape0.
  generalize (flat_map_row_at_seq (rows df) []). simpl. intros ->.
  apply Permutation_refl.
Qed.

Lemma index_read_csv header records :
  index (load_table header records) = seq 0 (List.length records).
Proof.
  unfold index, load_table, rename, read_csv; simpl.
  generalize 0. induction records as [|r rs IH]; intros start; simpl;
    [reflexivity | now rewrite IH].
Qed.


Section Seeded.
Variable np : RandomState.
Hypothesis np_permutes : permutes np.

(** What a seeded call returns: the process-wide generator is left alone, the
    two tables hold the rows of [df] between them, and the test table has
    [ceil(test_size * n)] rows. *)
Lemma train_test_split_seeded df ts seed g tr te g' :
  train_test_split np df ts (Some seed) g = (Some (tr, te), g') ->
  g' = g /\
  Permutation (rows te ++ rows tr) (rows df) /\
  shape0 te = ceil_frac (shape0 df) (fst ts) (snd ts) /\
  shape0 tr = shape0 df - shape0 te /\
  shape0 te < shape0 df /\
  columns tr = columns df /\ columns te = columns df.
Proof.
  unfold train_test_split.
  set (n := shape0 df). set (nt := ceil_frac n (fst ts) (snd ts)).
  destruct (Nat.eqb_spec (n - nt) 0) as [|Hne]; [discriminate|].
  set (perm := fst (permutation np (seeded np seed) n)).
  assert (Hperm : Permutation perm (seq 0 n)) by apply np_permutes.
  assert (Hlen : List.length perm = n).
  { rewrite (Permutation_length Hperm). apply length_seq. }
  assert (Hlt : forall i, In i perm -> i < List.length (rows df)).
  { intros i Hi. apply (Permutation_in _ Hperm), in_seq in Hi.
    unfold n, shape0 in Hi. lia. }
  intros E. inversion E; subst tr te g'. clear E.
  assert (Htrain : firstn (n - nt) (skipn nt perm) = skipn nt perm).
  { apply firstn_all2. rewrite length_skipn. lia. }
  rewrite Htrain.
  assert (Hte : shape0 (iloc (firstn nt perm) df) = nt).
  { unfold shape0, iloc; simpl. rewrite length_flat_map_row_at.
    - rewrite length_firstn. lia.
    - intros i Hi. apply Hlt. eapply in_firstn; eassumption. }
  assert (Htr : shape0 (iloc (skipn nt perm) df) = n - nt).
  { unfold shape0, iloc; simpl. rewrite length_flat_map_row_at.
    - rewrite length_skipn. lia.
    - intros i Hi. apply Hlt. eapply in_skipn; eassumption. }
  split; [reflexivity|]. split.
  - unfold iloc; simpl. rewrite <- flat_map_app, firstn_skipn.
    apply (iloc_permutation perm df Hperm).
  - rewrite Hte, Htr. repeat split; try reflexivity. lia.
Qed.

Lemma train_test_split_succeeds df ts seed g :
  ceil_frac (shape0 df) (fst ts) (snd ts) < shape0 df ->
  exists tr te, train_test_split np df ts (Some seed) g = (Some (tr, te), g).
Proof.
  intros H. unfold train_test_split.
  destruct (Nat.eqb_spec (shape0 df - ceil_frac (shape0 df) (fst ts) (snd ts)) 0);
    [lia|].
  eexists. eexists. reflexivity.
Qed.

End Seeded.

(** A table of at most one row cannot give away a quarter. *)
Lemma train_test_split_small np df seed g :
  shape0 df <= 1 ->
  fst (train_test_split np df (1, 4) (Some seed) g) = None.
Proof.
  intros H. unfold train_test_split.
  destruct (shape0 df) as [|[|n]]; [reflexivity | reflexivity | lia].
Qed.

Lemma ceil_fifth n : 5 * ceil_frac n 1 5 < n + 5 /\ n <= 5 * ceil_frac n 1 5.
Proof.
  unfold ceil_frac. simpl Nat.sub. rewrite Nat.mul_1_r.
  pose proof (Nat.div_mod_eq (n + 4) 5).
  pose proof (Nat.mod_upper_bound (n + 4) 5). lia.
Qed.

Lemma ceil_quarter n : 4 * ceil_frac n 1 4 < n + 4 /\ n <= 4 * ceil_frac n 1 4.
Proof.
  unfold ceil_frac. simpl Nat.sub. rewrite Nat.mul_1_r.
  pose proof (Nat.div_mod_eq (n + 3) 4).
  pose proof (Nat.mod_upper_bound (n + 3) 4). lia.
Qed.

End SplitFacts.

(** ** Claims on the partitioner *)

Section SplitClaims.
Import Dict Frame Sklearn Exporter Eff SplitFacts Samples.

Lemma shape0_load_table header records :
  shape0 (load_table header records) = List.length records.
Proof.
  unfold shape0, load_table, rename, read_csv; simpl.
  rewrite length_combine, length_seq. lia.
Qed.

Lemma split_table_eq np df g :
  split_table np df g =
  match train_test_split np df (1, 5) (Some 1) g with
  | (Some tt1, g1) =>
      match train_test_split np (fst tt1) (1, 4) (Some 1) g1 with
      | (Some tv, g2) =>
          (Some {| train := fst tv; val := snd tv; test := snd tt1 |}, g2)
      | (None, g2) => (None, g2)
      end
  | (None, g1) => (None, g1)
  end.
Proof.
  unfold split_table, bind, ret.
  destruct (train_test_split np df (1, 5) (Some 1) g) as [[tt1|] g1];
    reflexivity.
Qed.

Lemma NoDup_app_disjoint {A} (l1 l2 : list A) :
  NoDup (l1 ++ l2) -> forall a, In a l1 -> ~ In a l2.
Proof.
  induction l1 as [|x l1 IH]; simpl; [tauto|].
  intros H a [<-|Hin] Hin2.
  - inversion H as [|? ? Hout _]; subst. apply Hout, in_or_app. now right.
  - inversion H; subst. now apply (IH H3 a).
Qed.

(** The split of a loaded table of at least three rows. *)
Lemma split_table_spec np header records g :
  permutes np ->
  3 <= List.length records ->
  exists p,
    split_table np (load_table header records) g = (Some p, g) /\
    partition_of p (load_table header records) /\
    shape0 (train p) + shape0 (val p) + shape0 (test p) = List.length records /\
    split_sizes p (List.length records) /\
    Permutation (index (train p) ++ index (val p) ++ index (test p))
                (seq 0 (List.length records)) /\
    columns (train p) = columns (load_table header records) /\
    columns (val p) = columns (load_table header records) /\
    columns (test p) = columns (load_table header records).
Proof.
  intros Hnp Hn.
  set (df := load_table header records).
  set (n := List.length records) in *.
  assert (Hshape : shape0 df = n) by apply shape0_load_table.
  pose proof (ceil_fifth n) as [Hc1 Hc2].
  destruct (train_test_split_succeeds np df (1, 5) 1 g) as [tr1 [te E1]].
  { rewrite Hshape. simpl fst; simpl snd. lia. }
  destruct (train_test_split_seeded np Hnp _ _ _ _ _ _ _ E1)
    as [_ [P1 [S1 [S2 [_ [C1 C2]]]]]].
  simpl fst in S1; simpl snd in S1. rewrite Hshape in S1, S2.
  pose proof (ceil_quarter (shape0 tr1)) as [Hq1 Hq2].
  destruct (train_test_split_succeeds np tr1 (1, 4) 1 g) as [tr2 [va E2]].
  { simpl fst; simpl snd. lia. }
  destruct (train_test_split_seeded np Hnp _ _ _ _ _ _ _ E2)
    as [_ [P2 [T1 [T2 [_ [C3 C4]]]]]].
  simpl fst in T1; simpl snd in T1.
  exists {| train := tr2; val := va; test := te |}.
  assert (Hperm : Permutation (rows tr2 ++ rows va ++ rows te) (rows df)).
  { rewrite app_assoc. etransitivity; [apply Permutation_app_comm|].
    etransitivity; [|exact P1]. apply Permutation_app_head.
    etransitivity; [apply Permutation_app_comm | exact P2]. }
  assert (Hidx : Permutation (index tr2 ++ index va ++ index te) (seq 0 n)).
  { unfold index. rewrite <- !map_app.
    etransitivity; [exact (Permutation_map fst Hperm)|].
    change (map fst (rows df)) with (index df). unfold df.
    rewrite index_read_csv. apply Permutation_refl. }
  assert (Hnd : NoDup (index tr2 ++ index va ++ index te)).
  { apply (Permutation_NoDup (Permutation_sym Hidx)), seq_NoDup. }
  split; [|split; [|split; [|split; [|split]]]].
  - rewrite split_table_eq, E1. simpl fst. rewrite E2. reflexivity.
  - unfold partition_of; cbn [train val test].
    split; [exact Hperm|]. split; [|split; [|split]].
    + intros r. split.
      * intros Hin. apply (Permutation_in _ (Permutation_sym Hperm)) in Hin.
        rewrite !in_app_iff in Hin. exact Hin.
      * intros Hin. apply (Permutation_in _ Hperm). rewrite !in_app_iff. exact Hin.
    + intros i Hi Hv. apply (NoDup_app_disjoint _ _ Hnd i Hi).
      apply in_or_app. now left.
    + intros i Hi Ht. apply (NoDup_app_disjoint _ _ Hnd i Hi).
      apply in_or_app. now right.
    + apply NoDup_app_remove_l in Hnd. exact (NoDup_app_disjoint _ _ Hnd).
  - cbn [train val test]. lia.
  - unfold split_sizes; cbn [train val test].
    rewrite S1. split; [reflexivity|]. split; [|lia].
    rewrite T1. f_equal. lia.
  - cbn [train val test]. exact Hidx.
  - cbn [train val test]. repeat split; congruence.
Qed.

(** C1: a table of at least three rows is split; the three tables are
    pairwise disjoint by index label, hold exactly the rows of the table,
    their sizes add up, the test table has a fifth of the rows (rounded up)
    and the validation table a quarter of the rest (rounded up), which is
    60/20/20 without rounding when the number of rows is a multiple of
    five. *)
Theorem split_is_partition np header records g :
  permutes np ->
  3 <= List.length records ->
  exists p,
    split_table np (load_table header records) g = (Some p, g) /\
    partition_of p (load_table header records) /\
    shape0 (train p) + shape0 (val p) + shape0 (test p) = List.length records /\
    split_sizes p (List.length records) /\
    (List.length records mod 5 = 0 ->
     5 * shape0 (test p) = List.length records /\
     5 * shape0 (val p) = List.length records /\
     5 * shape0 (train p) = 3 * List.length records).
Proof.
  intros Hnp Hn.
  destruct (split_table_spec np header records g Hnp Hn)
    as [p [E [Hp [Hsum [Hsz _]]]]].
  exists p. split; [exact E|]. split; [exact Hp|]. split; [exact Hsum|].
  split; [exact Hsz|].
  intros Hmod. destruct Hsz as [S1 [S2 S3]].
  pose proof (ceil_fifth (List.length records)) as [Hc1 Hc2].
  pose proof (ceil_quarter (List.length records - shape0 (test p))) as [Hq1 Hq2].
  pose proof (Nat.div_mod_eq (List.length records) 5). lia.
Qed.

Lemma permutes_reversing : permutes reversing.
Proof. intros g n. simpl. apply Permutation_sym, Permutation_rev. Defined.

Lemma split_is_partition_witness :
  permutes reversing /\
  3 <= List.length sample_records /\
  exists p,
    split_table reversing (load_table sample_header sample_records) 7 = (Some p, 7) /\
    partition_of p (load_table sample_header sample_records) /\
    shape0 (train p) + shape0 (val p) + shape0 (test p) = 5 /\
    split_sizes p 5.
Proof.
  split; [exact permutes_reversing|]. split; [simpl; lia|].
  destruct (split_is_partition reversing sample_header sample_records 7
              permutes_reversing) as [p [E [Hp [Hs [Hz _]]]]].
  - simpl; lia.
  - exists p. split; [exact E | split; [exact Hp | split; [exact Hs | exact Hz]]].
Defined.

(** Below three rows the library refuses to split: one of the two train
    sets would be empty. *)
Lemma split_needs_three_rows np header records g :
  List.length records < 3 ->
  fst (split_table np (load_table header records) g) = None.
Proof.
  intros Hn. rewrite split_table_eq.
  destruct (train_test_split np _ (1, 5) (Some 1) g) as [[tt1|] g1] eqn:E1;
    [|reflexivity].
  assert (Hsmall : shape0 (fst tt1) <= 1).
  { unfold train_test_split in E1. rewrite shape0_load_table in E1.
    destruct records as [|r1 [|r2 [|r3 rs]]]; simpl in Hn; try lia;
      try discriminate E1.
    cbn [List.length ceil_frac fst snd Nat.mul Nat.add Nat.sub Nat.div
         Nat.divmod Nat.eqb] in E1.
    inversion E1; subst. cbn [fst]. unfold shape0, iloc; cbn [rows].
    etransitivity; [apply length_flat_map_row_at_le|].
    destruct (fst (permutation np (seeded np 1) 2)) as [|a [|b l]]; simpl; lia. }
  pose proof (train_test_split_small np (fst tt1) 1 g1 Hsmall) as Hnone.
  destruct (train_test_split np (fst tt1) (1, 4) (Some 1) g1) as [[tv|] g2];
    [discriminate Hnone | reflexivity].
Qed.

Lemma train_test_split_state np df ts seed g g0 :
  train_test_split np df ts (Some seed) g
  = (fst (train_test_split np df ts (Some seed) g0), g).
Proof.
  unfold train_test_split.
  destruct (Nat.eqb _ 0); reflexivity.
Qed.

Lemma split_table_state np df g g0 :
  split_table np df g = (fst (split_table np df g0), g).
Proof.
  rewrite !split_table_eq.
  rewrite (train_test_split_state np df (1, 5) 1 g g0).
  destruct (train_test_split np df (1, 5) (Some 1) g0) as [[tt1|] g1] eqn:E1;
    cbn [fst]; [|reflexivity].
  assert (g1 = g0) by (rewrite (train_test_split_state np df _ 1 g0 g0) in E1;
                       now inversion E1).
  subst g1.
  rewrite (train_test_split_state np (fst tt1) (1, 4) 1 g g0).
  destruct (train_test_split np (fst tt1) (1, 4) (Some 1) g0) as [[tv|] g2];
    reflexivity.
Qed.

(** C8: the split draws from a generator seeded afresh with 1 at each call,
    never from the process-wide one.  Two runs on the same table, whatever
    state the process-wide generator is in, give the same three tables and
    the same six files; the process-wide generator is not advanced. *)
Theorem split_is_deterministic np df g1 g2 :
  fst (split_table np df g1) = fst (split_table np df g2) /\
  snd (split_table np df g1) = g1 /\
  (forall name,
     fst (export_table np name df g1) = fst (export_table np name df g2)).
Proof.
  split; [|split].
  - now rewrite (split_table_state np df g1 g2).
  - now rewrite (split_table_state np df g1 g1).
  - intros name. unfold export_table, bind, lift, ret.
    rewrite (split_table_state np df g1 g2).
    destruct (split_table np df g2) as [[p|] g]; cbn [fst]; [|reflexivity].
    destruct (jsonl_of (train p)); [|reflexivity].
    destruct (jsonl_of (val p)); [|reflexivity].
    destruct (jsonl_of (test p)); reflexivity.
Qed.

(** The seed matters: an unseeded call ([random_state=None]) on the same
    table can differ from one run to the next. *)
Remark unseeded_split_depends_on_state :
  fst (train_test_split alternating (load_table sample_header sample_records)
         (1, 5) None 0)
  <> fst (train_test_split alternating (load_table sample_header sample_records)
            (1, 5) None 1).
Proof. vm_compute. discriminate. Qed.

End SplitClaims.

(** ** The jsonl writer *)

Module ExportFacts.
Import Dict DictFacts Frame Exporter.

Lemma in_keys_fold_put row obj k :
  In k (keys (fold_left put row obj)) <-> In k (keys obj) \/ In k (keys row).
Proof.
  revert obj. induction row as [|[k0 v0] row IH]; intros obj; simpl.
  - tauto.
  - rewrite IH. unfold put; simpl. rewrite in_keys_set.
    split; [intros [[->|H]|H] | intros [H|[->|H]]]; auto.
Qed.

Lemma get_fold_put_other row obj k :
  ~ In k (keys row) -> get k (fold_left put row obj) = get k obj.
Proof.
  revert obj. induction row as [|[k0 v0] row IH]; intros obj H; simpl.
  - reflexivity.
  - rewrite IH by (intros Hin; apply H; now right).
    unfold put; simpl. apply get_set_other. intros ->. apply H. now left.
Qed.

Lemma get_fold_put_in row obj k v :
  wf row -> get k row = Some v -> get k (fold_left put row obj) = Some v.
Proof.
  unfold wf. revert obj. induction row as [|[k0 v0] row IH]; intros obj Hwf;
    simpl; [discriminate|].
  inversion Hwf as [|? ? Hout Hwf']; subst.
  destruct (String.eqb_spec k k0) as [->|Hne].
  - intros E; inversion E; subst. rewrite get_fold_put_other by assumption.
    unfold put; simpl. apply get_set_same.
  - intros E. now apply IH.
Qed.

Lemma write_row_eq obj idx row :
  write_row obj idx row = fold_left put row (set "id" (JStr idx) obj).
Proof. reflexivity. Qed.

Lemma in_keys_write_row obj idx row k :
  In k (keys (write_row obj idx row)) <->
  k = "id" \/ In k (keys obj) \/ In k (keys row).
Proof.
  rewrite write_row_eq, in_keys_fold_put, in_keys_set. tauto.
Qed.

Lemma get_write_row_id obj idx row :
  ~ In "id" (keys row) -> get "id" (write_row obj idx row) = Some (JStr idx).
Proof.
  intros H. rewrite write_row_eq, get_fold_put_other by assumption.
  apply get_set_same.
Qed.

Lemma get_write_row_in obj idx row k v :
  wf row -> get k row = Some v -> get k (write_row obj idx row) = Some v.
Proof. intros. rewrite write_row_eq. now apply get_fold_put_in. Qed.

Lemma get_write_row_stale obj idx row k :
  k <> "id" -> ~ In k (keys row) -> get k (write_row obj idx row) = get k obj.
Proof.
  intros Hid H. rewrite write_row_eq, get_fold_put_other by assumption.
  now apply get_set_other.
Qed.

Lemma data_obj_after_app obj a b :
  data_obj_after obj (a ++ b)%list = data_obj_after (data_obj_after obj a) b.
Proof. apply fold_left_app. Qed.

Lemma in_keys_data_obj_after items obj k :
  In k (keys (data_obj_after obj items)) <->
  In k (keys obj) \/ (items <> [] /\ k = "id") \/
  exists e, In e items /\ In k (keys (snd e)).
Proof.
  revert obj. induction items as [|[idx row] items IH]; intros obj.
  - simpl. split; [auto|]. intros [H|[[H _]|[e [[] _]]]]; [assumption | congruence].
  - change (data_obj_after obj ((idx, row) :: items))
      with (data_obj_after (write_row obj idx row) items).
    rewrite IH, in_keys_write_row. split.
    + intros [[->|[H|H]]|[[_ ->]|[e [He Hk]]]].
      * right; left. split; [discriminate | reflexivity].
      * now left.
      * right; right. exists (idx, row). split; [now left | assumption].
      * right; left. split; [discriminate | reflexivity].
      * right; right. exists e. split; [now right | assumption].
    + intros [H|[[_ ->]|[e [[<-|He] Hk]]]].
      * left; right; now left.
      * left; now left.
      * left; right; now right.
      * right; right. exists e. now split.
Qed.

Lemma get_data_obj_after_stale items obj k :
  k <> "id" ->
  (forall e, In e items -> ~ In k (keys (snd e))) ->
  get k (data_obj_after obj items) = get k obj.
Proof.
  intros Hid. revert obj. induction items as [|[idx row] items IH]; intros obj H.
  - reflexivity.
  - change (data_obj_after obj ((idx, row) :: items))
      with (data_obj_after (write_row obj idx row) items).
    rewrite IH by (intros e He; apply H; now right).
    apply get_write_row_stale; [assumption|]. apply (H (idx, row)). now left.
Qed.

(** The line of a row is [data_obj] as the rows before have left it, with
    this row written over it. *)
Lemma nth_jsonl_lines pre idx row post obj :
  nth_error (jsonl_lines obj (pre ++ (idx, row) :: post)%list) (List.length pre)
  = Some (write_row (data_obj_after obj pre) idx row).
Proof.
  revert obj. induction pre as [|[i r] pre IH]; intros obj; simpl.
  - reflexivity.
  - apply IH.
Qed.




Lemma nodupb_true {A} (eqb : A -> A -> bool) (l : list A) :
  (forall a b, eqb a b = true <-> a = b) ->
  NoDup l -> nodupb eqb l = true.
Proof.
  intros Heq. induction 1 as [|a l Hout Hnd IH]; simpl; [reflexivity|].
  rewrite IH, andb_true_r. apply negb_true_iff.
  destruct (existsb (eqb a) l) eqn:E; [|reflexivity].
  apply existsb_exists in E. destruct E as [b [Hb Hab]].
  apply Heq in Hab. subst b. contradiction.
Qed.

Lemma decimal_inj n m : decimal n = decimal m -> n = m.
Proof.
  unfold decimal. intros E. apply Unsigned.to_uint_inj.
  assert (H : Some (Nat.to_uint n) = Some (Nat.to_uint m)).
  { rewrite <- !NilEmpty.usu. now rewrite E. }
  now inversion H.
Qed.


End ExportFacts.

(** ** Claims on the jsonl export *)

Section ExportClaims.
Import Dict DictFacts Frame Sklearn Exporter Eff SplitFacts ExportFacts Samples.




(** C10, as stated, fails in its last part: with growing key sets every line
    has exactly the fields of its own row (and [id]) although the rows do
    not have the same key set. *)
Lemma own_fields_counterexample :
  create_jsonl_data growing_rows
  = [ [("id", JStr "0"); ("a", JInt 1)];
      [("id", JStr "1"); ("a", JInt 2); ("b", JInt 3)] ] /\
  (forall j idx row line,
     nth_error growing_rows j = Some (idx, row) ->
     nth_error (create_jsonl_data growing_rows) j = Some line ->
     has_fields line ("id" :: keys row)) /\
  ~ (forall r1 r2, In r1 growing_rows -> In r2 growing_rows ->
       forall k, In k (keys (snd r1)) <-> In k (keys (snd r2))).
Proof.
  split; [reflexivity|]. split.
  - intros [|[|j]] idx row line E1 E2; simpl in E1, E2.
    + inversion E1; inversion E2; subst. intros k; simpl; tauto.
    + inversion E1; inversion E2; subst. intros k; simpl; tauto.
    + destruct j; discriminate E1.
  - intros H.
    assert (Hb : In "b" (keys (snd ("0", [("a", JInt 1)])))).
    { apply (H ("0", [("a", JInt 1)])
               ("1", [("a", JInt 2); ("b", JInt 3)])).
      - now left.
      - right; now left.
      - simpl. right; now left. }
    simpl in Hb. destruct Hb as [Hb|[]]. discriminate Hb.
Qed.

(** C10 (amended): the record object is shared by all rows and never reset.
    The line of a row has as fields [id], the keys of that row and the keys
    of every row before it; a key of the row carries the value of the row; a
    key other than [id] that the row lacks keeps the value of the last
    earlier row that had it; the [id] is never left over from an earlier
    row, it is the key of the row unless the row has an [id] field of its
    own; and the line has exactly the fields of its own row (and [id]) if
    and only if every key of every earlier row is [id] or a key of this
    row. *)
Theorem jsonl_lines_accumulate pre idx row post :
  exists line,
    nth_error (create_jsonl_data (pre ++ (idx, row) :: post)%list)
              (List.length pre) = Some line /\
    (forall k, In k (keys line) <->
               k = "id" \/ In k (keys row) \/
               exists e, In e pre /\ In k (keys (snd e))) /\
    (wf row -> forall k v, get k row = Some v -> get k line = Some v) /\
    (~ In "id" (keys row) -> id_of line = Some (JStr idx)) /\
    (forall pre1 idx' row' pre2 k v,
        pre = (pre1 ++ (idx', row') :: pre2)%list ->
        wf row' -> get k row' = Some v -> k <> "id" ->
        (forall e, In e pre2 -> ~ In k (keys (snd e))) ->
        ~ In k (keys row) ->
        get k line = Some v) /\
    (has_fields line ("id" :: keys row) <->
     forall e, In e pre ->
       forall k, In k (keys (snd e)) -> k = "id" \/ In k (keys row)).
Proof.
  exists (write_row (data_obj_after [] pre) idx row).
  assert (Hkeys : forall k,
             In k (keys (write_row (data_obj_after [] pre) idx row)) <->
             k = "id" \/ In k (keys row) \/
             exists e, In e pre /\ In k (keys (snd e))).
  { intros k. rewrite in_keys_write_row, in_keys_data_obj_after. simpl.
    split.
    - intros [H|[[[]|[[_ H]|H]]|H]]; auto.
    - intros [H|[H|H]]; auto. }
  split; [apply nth_jsonl_lines|]. split; [exact Hkeys|].
  split; [intros Hwf k v Hget; now apply get_write_row_in|].
  split; [intros Hid; unfold id_of; now apply get_write_row_id|].
  split.
  - intros pre1 idx' row' pre2 k v -> Hwf Hget Hid Hpre2 Hrow.
    rewrite get_write_row_stale by assumption.
    rewrite data_obj_after_app.
    change (data_obj_after (data_obj_after [] pre1) ((idx', row') :: pre2))
      with (data_obj_after (write_row (data_obj_after [] pre1) idx' row') pre2).
    rewrite get_data_obj_after_stale by assumption.
    now apply get_write_row_in.
  - unfold has_fields. split.
    + intros H e He k Hk.
      assert (Hin : In k ("id" :: keys row)).
      { apply H, Hkeys. right; right. now exists e. }
      destruct Hin as [<-|Hin]; auto.
    + intros H k. rewrite Hkeys. simpl. split.
      * intros [->|[Hk|[e [He Hk]]]]; auto.
        destruct (H e He k Hk) as [->|Hk']; auto.
      * intros [<-|Hk]; auto.
Qed.

Lemma jsonl_lines_accumulate_witness :
  exists line,
    nth_error (create_jsonl_data ragged_rows) 1 = Some line /\
    In "text" (keys line) /\
    get "text" line = Some (JStr "clear") /\
    id_of line = Some (JStr "1") /\
    ~ has_fields line ["id"; "img"].
Proof.
  destruct (jsonl_lines_accumulate
              [("0", [("img", JStr "a.png"); ("text", JStr "clear")])]
              "1" [("img", JStr "b.png")] [])
    as [line [E [Hk [_ [Hid [Hstale Hown]]]]]].
  exists line. split; [exact E|]. split; [|split; [|split]].
  - apply Hk. right; right.
    exists ("0", [("img", JStr "a.png"); ("text", JStr "clear")]).
    split; [now left | simpl; tauto].
  - apply (Hstale [] "0" [("img", JStr "a.png"); ("text", JStr "clear")] []).
    + reflexivity.
    + unfold wf; simpl. repeat constructor; simpl; intuition discriminate.
    + reflexivity.
    + discriminate.
    + intros e [].
    + simpl. intuition discriminate.
  - apply Hid. simpl. intuition discriminate.
  - intros Hf. pose proof (proj1 Hown Hf) as Hf'.
    destruct (Hf' ("0", [("img", JStr "a.png"); ("text", JStr "clear")])
                 (or_introl eq_refl) "text") as [H|H].
    + simpl. tauto.
    + discriminate H.
    + simpl in H. intuition discriminate.
Defined.

End ExportClaims.

(* ================================================================= *)
(** * Part III: further properties of the script *)
(* ================================================================= *)

(** ** Rule 1 and the wrapper prefix *)

Module RenameFacts.
Import KeyPattern KeyPatternFacts Remap.

Lemma append_assoc (a b c : string) : (a ++ b) ++ c = a ++ b ++ c.
Proof. induction a as [|x a IH]; simpl; [reflexivity | now rewrite IH]. Qed.

Lemma append_inv_head (a b c : string) : a ++ b = a ++ c -> b = c.
Proof.
  induction a as [|x a IH]; simpl; [trivial|].
  intros H. injection H as H. now apply IH.
Qed.

(** A text that starts with the wrapper prefix and has [denselayer] after
    [x] has the whole prefix inside [x]. *)
Lemma module_prefix_split x t r :
  x ++ "denselayer" ++ t = "module." ++ r -> exists x', x = "module." ++ x'.
Proof.
  intros H.
  do 7 (destruct x as [|? x]; simpl in H; [discriminate H | injection H as -> H]).
  now exists x.
Qed.

Lemma free_of_newline_module x :
  free_of_newline (chars ("module." ++ x)) = free_of_newline (chars x).
Proof. reflexivity. Qed.

Lemma matches_add_prefix rest g1 g2 :
  matches rest g1 g2 -> matches ("module." ++ rest) ("module." ++ g1) g2.
Proof.
  intros [x [ds [layer [sub [suffix [eol H]]]]]].
  destruct H as [H1 [H2 [H3 [Hx H]]]].
  exists ("module." ++ x), ds, layer, sub, suffix, eol.
  split; [now rewrite H1, append_assoc|]. split; [exact H2|].
  split; [now rewrite H3, append_assoc|].
  split; [now rewrite free_of_newline_module | exact H].
Qed.

Lemma matches_drop_prefix rest g1 g2 :
  matches ("module." ++ rest) g1 g2 ->
  exists g1', g1 = "module." ++ g1' /\ matches rest g1' g2.
Proof.
  intros [x [ds [layer [sub [suffix [eol H]]]]]].
  destruct H as [H1 [H2 [H3 [Hx H]]]].
  assert (Hsplit : exists x', x = "module." ++ x').
  { apply (module_prefix_split x
             (ds ++ "." ++ layer ++ "." ++ g2 ++ eol) rest).
    rewrite H3, H1, !append_assoc. reflexivity. }
  destruct Hsplit as [x' ->].
  exists (x' ++ "denselayer" ++ ds ++ "." ++ layer).
  split; [now rewrite H1, append_assoc|].
  exists x', ds, layer, sub, suffix, eol.
  split; [reflexivity|]. split; [exact H2|]. split.
  - apply (append_inv_head "module."). rewrite H3, H1, !append_assoc.
    reflexivity.
  - split; [now rewrite <- free_of_newline_module | exact H].
Qed.

(** The reversed text of a renamed key has no second match: after the
    suffix and the sub-index comes the layer name, not a dot. *)
Lemma renamed_has_no_match layer sub suffix rest :
  In layer layers -> In sub subindices -> In suffix suffixes ->
  forall r,
    r = (rev (chars suffix) ++ rev (chars ".") ++ rev (chars sub) ++
         rev (chars layer) ++ rest)%list ->
    match_reversed r = None /\
    (forall r', r <> newline :: r').
Proof.
  unfold layers, subindices, suffixes. simpl In.
  intros [<-|[<-|[<-|[]]]] [<-|[<-|[]]] [<-|[<-|[<-|[<-|[]]]]] r ->;
    (split; [reflexivity | intros r' H; discriminate H]).
Qed.

Lemma pattern_match_renamed key g1 g2 :
  pattern_match key = Some (g1, g2) -> pattern_match (g1 ++ g2) = None.
Proof.
  intros E. apply pattern_match_sound in E.
  destruct E as [x [ds [layer [sub [suffix [eol H]]]]]].
  destruct H as [H1 [H2 [_ [_ [_ [_ [Hlayer [Hsub [Hsuffix _]]]]]]]]].
  destruct (renamed_has_no_match layer sub suffix
              (rev (chars ".") ++ rev (chars ds) ++
               rev (chars "denselayer") ++ rev (chars x))%list
              Hlayer Hsub Hsuffix (rev (chars (g1 ++ g2)))) as [Hnone Hnl].
  { rewrite H1, H2, !chars_app, !rev_app_distr, <- !app_assoc. reflexivity. }
  unfold pattern_match. rewrite Hnone.
  destruct (rev (chars (g1 ++ g2))) as [|c r'] eqn:Er; [reflexivity|].
  destruct (Ascii.eqb_spec c newline) as [->|]; [|reflexivity].
  exfalso. exact (Hnl r' eq_refl).
Qed.

(** Rule 1 is idempotent: a renamed key no longer matches the pattern, so
    renaming again changes nothing. *)
Theorem rename_idempotent key : rename (rename key) = rename key.
Proof.
  unfold rename at 2 3.
  destruct (pattern_match key) as [[g1 g2]|] eqn:E.
  - unfold rename. now rewrite (pattern_match_renamed key g1 g2 E).
  - unfold rename. now rewrite E.
Qed.

Lemma rename_with_prefix rest : rename ("module." ++ rest) = "module." ++ rename rest.
Proof.
  unfold rename.
  destruct (pattern_match ("module." ++ rest)) as [[g1 g2]|] eqn:E.
  - apply pattern_match_sound in E.
    destruct (matches_drop_prefix _ _ _ E) as [g1' [-> Hm]].
    apply pattern_match_complete in Hm. rewrite Hm.
    now rewrite append_assoc.
  - destruct (pattern_match rest) as [[h1 h2]|] eqn:E'; [|reflexivity].
    apply pattern_match_sound, matches_add_prefix, pattern_match_complete in E'.
    rewrite E' in E. discriminate E.
Qed.

(** On a key that carries the wrapper prefix the new name is the rest of the
    key after rule 1: the strip takes the prefix and nothing else. *)
Theorem new_key_strips_wrapper rest : new_key ("module." ++ rest) = rename rest.
Proof. unfold new_key. rewrite rename_with_prefix. reflexivity. Qed.

(** Rule 1 neither adds nor removes a wrapper prefix. *)
Lemma rename_keeps_prefix r s :
  rename r = "module." ++ s -> exists r', r = "module." ++ r'.
Proof.
  unfold rename. destruct (pattern_match r) as [[g1 g2]|] eqn:E.
  - apply pattern_match_sound in E.
    destruct E as [x [ds [layer [sub [suffix [eol H]]]]]].
    destruct H as [H1 [H2 [H3 _]]].
    intros Hs.
    destruct (module_prefix_split x (ds ++ "." ++ layer ++ g2) s) as [x' ->].
    { rewrite <- Hs, H1, !append_assoc. reflexivity. }
    exists (x' ++ "denselayer" ++ ds ++ "." ++ layer ++ "." ++ g2 ++ eol).
    rewrite H3, H1, !append_assoc. reflexivity.
  - intros ->. now exists s.
Qed.

End RenameFacts.

(** ** More on the remapping loop *)

Module RemapMore.
Import Dict DictFacts Remap RemapFacts RenameFacts Samples MoreSamples.

Section Loop.
Context {T : Type}.
Implicit Types (d : dict T) (k : string).

Lemma length_set_le k (v : T) d : List.length (set k v d) <= S (List.length d).
Proof.
  induction d as [|[k' v'] d IH]; simpl; [lia|].
  destruct (k =? k'); simpl; lia.
Qed.

Lemma length_remove_le k d : List.length (remove k d) <= List.length d.
Proof. apply filter_length_le. Qed.

Lemma length_remove_lt k d :
  In k (keys d) -> List.length (remove k d) < List.length d.
Proof.
  induction d as [|[k' v'] d IH]; simpl; [tauto|].
  destruct (String.eqb_spec k k') as [->|Hne]; simpl.
  - intros _. pose proof (length_remove_le k' d). lia.
  - intros [E|Hin]; [congruence|]. specialize (IH Hin). lia.
Qed.

Lemma values_set k (v v' : T) d :
  In v' (map snd (set k v d)) -> v' = v \/ In v' (map snd d).
Proof.
  induction d as [|[k' v0] d IH]; simpl.
  - intros [E|[]]; now left.
  - destruct (k =? k'); simpl.
    + intros [E|H]; [now left | right; now right].
    + intros [E|H]; [right; now left|].
      destruct (IH H) as [E|H']; [now left | right; now right].
Qed.

Lemma values_remove k (v : T) d :
  In v (map snd (remove k d)) -> In v (map snd d).
Proof.
  unfold remove. rewrite !in_map_iff. intros [e [E Hin]].
  apply filter_In in Hin. exists e. tauto.
Qed.

Lemma remap_step_bounded key d d' :
  remap_step key d = Some d' ->
  List.length d' <= List.length d /\
  (forall v, In v (map snd d') -> In v (map snd d)).
Proof.
  rewrite remap_step_eq. destruct (get key d) as [t|] eqn:Eg; [|discriminate].
  unfold del. destruct (mem key _) eqn:Em; [|discriminate].
  intros E. inversion E; subst d'. clear E. split.
  - apply mem_true_iff in Em. apply length_remove_lt in Em.
    pose proof (length_set_le (new_key key) t d). lia.
  - intros v Hv. apply values_remove, values_set in Hv.
    destruct Hv as [->|Hv]; [|exact Hv].
    apply get_some_in in Eg. change t with (snd (key, t)). now apply in_map.
Qed.

Lemma remap_loop_bounded ks d d' :
  remap_loop ks d = Some d' ->
  List.length d' <= List.length d /\
  (forall v, In v (map snd d') -> In v (map snd d)).
Proof.
  revert d. induction ks as [|key ks IH]; intros d; simpl.
  - intros E; inversion E; subst. split; [lia | trivial].
  - destruct (remap_step key d) as [d1|] eqn:E1; [|discriminate].
    intros E. destruct (IH _ E) as [L V].
    destruct (remap_step_bounded _ _ _ E1) as [L1 V1]. split; [lia | auto].
Qed.

(** The loop never raises a [KeyError]: a key of the snapshot is still in
    the mapping when its turn comes, whatever the earlier iterations have
    inserted or deleted.  The keys of the result are pairwise distinct. *)
Theorem remap_never_raises d : wf d -> exists d', remap d = Some d' /\ wf d'.
Proof. apply remap_total. Qed.

(** The loop only moves entries: the result has no more entries than the
    original mapping, each of its keys is the new name of an original key,
    and each of its tensors is one of the original tensors. *)
Theorem remap_only_moves d d' :
  remap d = Some d' ->
  List.length d' <= List.length d /\
  (forall k', In k' (keys d') -> exists k, In k (keys d) /\ k' = new_key k) /\
  (forall v, In v (map snd d') -> In v (map snd d)).
Proof.
  intros E. destruct (remap_loop_bounded _ _ _ E) as [L V].
  split; [exact L|]. split; [|exact V].
  intros k' Hk'.
  destruct (remap_loop_keys _ _ _ E k' Hk') as [[k [Hk ->]]|[Hin Hout]].
  - now exists k.
  - contradiction.
Qed.

(** A checkpoint saved under the wrapper: every key starts with the prefix,
    once, and the new names are pairwise distinct.  The loop then returns
    the tensors in their order, each under the rest of its key after
    rule 1. *)
Theorem remap_wrapped_checkpoint d :
  wf d ->
  (forall k, In k (keys d) ->
     exists r, k = "module." ++ r /\ forall r', r <> "module." ++ r') ->
  NoDup (map new_key (keys d)) ->
  remap d = Some (map (fun e => (rename (slice_from 7 (fst e)), snd e)) d).
Proof.
  intros Hwf Hpre Hinj.
  assert (Hfresh : forall k, In k (keys d) -> ~ In (new_key k) (keys d)).
  { intros k Hk Hin.
    destruct (Hpre k Hk) as [r [-> Hr]].
    destruct (Hpre _ Hin) as [r2 [E2 _]].
    unfold new_key in E2. rewrite rename_with_prefix in E2. simpl in E2.
    destruct (rename_keeps_prefix r r2 E2) as [r' Er]. exact (Hr r' Er). }
  unfold remap.
  generalize (remap_loop_fresh d Hwf Hinj Hfresh d [] eq_refl).
  simpl. rewrite app_nil_r. intros ->. f_equal.
  apply map_ext_in. intros [k v] Hin. unfold transformed; simpl. f_equal.
  destruct (Hpre k) as [r [-> _]].
  { change k with (fst (k, v)). now apply in_map. }
  unfold new_key. rewrite rename_with_prefix. reflexivity.
Qed.

End Loop.

Lemma wf_sample_checkpoint : wf sample_checkpoint.
Proof. unfold wf; simpl. repeat constructor; simpl; intuition discriminate. Defined.

Lemma remap_never_raises_witness :
  wf sample_checkpoint /\
  exists d', remap sample_checkpoint = Some d' /\ wf d'.
Proof.
  split; [exact wf_sample_checkpoint|].
  exact (remap_never_raises sample_checkpoint wf_sample_checkpoint).
Defined.

Lemma remap_only_moves_witness :
  remap chain_checkpoint = Some [("fc.bias", 1)] /\
  List.length [("fc.bias", 1)] <= List.length chain_checkpoint /\
  (forall k', In k' (keys [("fc.bias", 1)]) ->
     exists k, In k (keys chain_checkpoint) /\ k' = new_key k) /\
  (forall v, In v (map snd [("fc.bias", 1)]) -> In v (map snd chain_checkpoint)).
Proof.
  split; [reflexivity|].
  exact (remap_only_moves chain_checkpoint [("fc.bias", 1)] eq_refl).
Defined.

Lemma remap_wrapped_checkpoint_witness :
  wf legacy_state_dict /\
  (forall k, In k (keys legacy_state_dict) ->
     exists r, k = "module." ++ r /\ forall r', r <> "module." ++ r') /\
  NoDup (map new_key (keys legacy_state_dict)) /\
  remap legacy_state_dict
  = Some [("densenet121.features.conv0.weight", 110);
          ("densenet121.features.denseblock1.denselayer1.norm1.weight", 111);
          ("densenet121.classifier.0.weight", 130);
          ("densenet121.classifier.0.bias", 131)].
Proof.
  assert (H1 : wf legacy_state_dict).
  { unfold wf; simpl. repeat constructor; simpl; intuition discriminate. }
  assert (H2 : forall k, In k (keys legacy_state_dict) ->
             exists r, k = "module." ++ r /\ forall r', r <> "module." ++ r').
  { simpl. intros k [<-|[<-|[<-|[<-|[]]]]]; eexists;
      (split; [reflexivity | intros r' H; discriminate H]). }
  assert (H3 : NoDup (map new_key (keys legacy_state_dict))).
  { vm_compute. repeat constructor; simpl; intuition discriminate. }
  split; [exact H1|]. split; [exact H2|]. split; [exact H3|].
  exact (remap_wrapped_checkpoint legacy_state_dict H1 H2 H3).
Defined.

End RemapMore.

(** ** More on the checkpoint procedure *)

Module TorchMore.
Import Dict DictFacts Eff Torch TorchNames Samples MoreSamples.





(** When the loader accepts the remapped checkpoint and the output file can
    be written, the module that is saved carries the tensors of the
    checkpoint: its names are the parameter names of the model without the
    leading [densenet121.], and every tensor whose name the remapped
    checkpoint has (below [densenet121.]) is the tensor of the checkpoint,
    not the pretrained or freshly initialised one. *)
Theorem saved_tensors_come_from_checkpoint {tensor}
    (accepts : module tensor -> dict tensor -> bool)
    (w : weights tensor) (world0 : world tensor) entries sd sd' model_ft :
  fs world0 CKPT_PATH = Some (Pickled_dict entries) ->
  get "state_dict" entries = Some sd ->
  Remap.remap sd = Some sd' ->
  DenseNet121 w N_CLASSES = Some model_ft ->
  accepts model_ft sd' = true ->
  writable world0 SAVED_PATH = true ->
  exists m,
    fs (snd (convert_checkpoint accepts (Some w) world0)) SAVED_PATH
    = Some (Pickled_module m) /\
    map (String.append "densenet121.") (keys (state_dict "" m))
    = parameter_names w /\
    forall k v t, In (k, v) (state_dict "" m) ->
                  get ("densenet121." ++ k) sd' = Some t -> v = t.
Proof.
  intros Hf Hsd Hr Hm Hacc Hw.
  inversion Hm; subst model_ft. clear Hm.
  unfold convert_checkpoint, bind, lift, isfile, ret.
  cbn [DenseNet121 torchvision_densenet121 getattr get String.eqb Ascii.eqb
       Bool.eqb in_features_of setattr set] in *.
  rewrite Hf. cbn [is_some]. unfold print at 1. cbn [fs stdout writable].
  unfold torch_load_entry. cbn [fs]. rewrite Hf, Hsd, Hr.
  unfold load_state_dict. rewrite Hacc.
  cbn -[SAVED_PATH]. unfold torch_save, print. cbn -[SAVED_PATH].
  rewrite Hw. cbn -[SAVED_PATH]. rewrite String.eqb_refl.
  eexists. split; [reflexivity|]. cbn. split.
  - unfold parameter_names, keys.
    rewrite ?app_nil_r, !map_app, !map_map. reflexivity.
  - intros k v t Hin Hget. rewrite ?app_nil_r in Hin. apply in_app_or in Hin.
    destruct Hin as [Hin|[E|[E|[]]]].
    + rewrite map_map in Hin. apply in_map_iff in Hin.
      destruct Hin as [[k0 v0] [E Hin]]. cbn in E. inversion E; subst k v.
      unfold assign. cbn in Hget. now rewrite Hget.
    + inversion E; subst k v. unfold assign. cbn in Hget. now rewrite Hget.
    + inversion E; subst k v. unfold assign. cbn in Hget. now rewrite Hget.
Qed.

Lemma saved_tensors_come_from_checkpoint_witness :
  exists m,
    fs (snd (convert_checkpoint names_agree (Some layer_weights) legacy_world))
       SAVED_PATH
    = Some (Pickled_module m) /\
    get "features.denseblock1.denselayer1.norm1.weight" (state_dict "" m)
    = Some 111.
Proof.
  destruct (saved_tensors_come_from_checkpoint names_agree layer_weights
              legacy_world
              [("epoch", []); ("state_dict", legacy_state_dict)]
              legacy_state_dict
              [("densenet121.features.conv0.weight", 110);
               ("densenet121.features.denseblock1.denselayer1.norm1.weight", 111);
               ("densenet121.classifier.0.weight", 130);
               ("densenet121.classifier.0.bias", 131)]
              _ eq_refl eq_refl eq_refl eq_refl eq_refl eq_refl)
    as [m [E _]].
  exists m. split; [exact E|].
  cbn in E. inversion E. reflexivity.
Defined.

End TorchMore.

(** ** More on the partitioner and the export *)

Module ExportMore.
Import Dict DictFacts Frame Sklearn Exporter Eff SplitFacts ExportFacts.
Import KeyPatternFacts RenameFacts Listing Samples MoreSamples.

Lemma nodupb_NoDup {A} (eqb : A -> A -> bool) (l : list A) :
  (forall a b, eqb a b = true <-> a = b) ->
  nodupb eqb l = true -> NoDup l.
Proof.
  intros Heq. induction l as [|a l IH]; simpl; [constructor|].
  intros H. apply andb_true_iff in H. destruct H as [H1 H2].
  constructor; [|now apply IH].
  intros Hin. apply negb_true_iff in H1.
  assert (E : existsb (eqb a) l = true).
  { apply existsb_exists. exists a. split; [assumption | now apply Heq]. }
  congruence.
Qed.

Lemma keys_combine_eq {A} (cols : list string) (cells : list A) :
  List.length cells = List.length cols -> keys (combine cols cells) = cols.
Proof.
  revert cells. induction cols as [|k cols IH]; intros [|c cells]; simpl;
    try discriminate; [reflexivity|].
  intros E. injection E as E. unfold keys in *. simpl. now rewrite IH.
Qed.

Lemma set_middle {V} k (v v0 : V) pre rest :
  ~ In k (keys pre) ->
  set k v (pre ++ (k, v0) :: rest)%list = (pre ++ (k, v) :: rest)%list.
Proof.
  induction pre as [|[k' v'] pre IH]; simpl.
  - intros _. now rewrite String.eqb_refl.
  - intros H. destruct (String.eqb_spec k k') as [->|Hne].
    + exfalso. apply H. now left.
    + rewrite IH; [reflexivity|]. intros Hin. apply H. now right.
Qed.

Lemma fold_put_fresh row obj :
  NoDup (keys row) -> (forall k, In k (keys row) -> ~ In k (keys obj)) ->
  fold_left put row obj = (obj ++ row)%list.
Proof.
  revert obj. induction row as [|[k v] row IH]; intros obj Hnd Hfresh; simpl.
  - now rewrite app_nil_r.
  - inversion Hnd as [|? ? Hout Hnd']; subst.
    unfold put at 2; simpl. rewrite set_fresh by (apply Hfresh; now left).
    rewrite IH; [now rewrite <- app_assoc | assumption |].
    intros k' Hk'. rewrite keys_app, in_app_iff. simpl.
    intros [Hin|[<-|[]]]; [|contradiction].
    apply (Hfresh k'); [now right | assumption].
Qed.

Lemma fold_put_overwrite cols (c0 c1 : list json) pre :
  NoDup cols -> (forall k, In k cols -> ~ In k (keys pre)) ->
  List.length c0 = List.length cols -> List.length c1 = List.length cols ->
  fold_left put (combine cols c1) (pre ++ combine cols c0)%list
  = (pre ++ combine cols c1)%list.
Proof.
  revert c0 c1 pre.
  induction cols as [|k cols IH]; intros [|a0 c0] [|a1 c1] pre Hnd Hfresh L0 L1;
    simpl in L0, L1; try discriminate; simpl; [reflexivity|].
  inversion Hnd as [|? ? Hout Hnd']; subst.
  unfold put at 2; simpl. rewrite set_middle by (apply Hfresh; now left).
  specialize (IH c0 c1 (pre ++ [(k, a1)])%list).
  rewrite <- !app_assoc in IH. simpl in IH. apply IH; auto.
  intros k' Hk'. rewrite keys_app, in_app_iff. simpl.
  intros [Hin|[<-|[]]]; [|contradiction].
  apply (Hfresh k'); [now right | assumption].
Qed.

Lemma write_row_first cols idx (cells : list json) :
  NoDup cols -> ~ In "id" cols -> List.length cells = List.length cols ->
  write_row [] idx (combine cols cells)
  = ("id", JStr idx) :: combine cols cells.
Proof.
  intros Hnd Hid L. unfold write_row. simpl set.
  rewrite fold_put_fresh; [reflexivity | now rewrite keys_combine_eq |].
  rewrite keys_combine_eq by assumption.
  intros k Hk [<-|[]]. contradiction.
Qed.

Lemma write_row_next cols idx0 idx (c0 cells : list json) :
  NoDup cols -> ~ In "id" cols ->
  List.length c0 = List.length cols -> List.length cells = List.length cols ->
  write_row (("id", JStr idx0) :: combine cols c0) idx (combine cols cells)
  = ("id", JStr idx) :: combine cols cells.
Proof.
  intros Hnd Hid L0 L. unfold write_row. simpl set.
  apply (fold_put_overwrite cols c0 cells [("id", JStr idx)]); auto.
  intros k Hk [<-|[]]. contradiction.
Qed.

Lemma jsonl_lines_own cols (rs : list (nat * list json)) obj :
  NoDup cols -> ~ In "id" cols ->
  (forall r, In r rs -> List.length (snd r) = List.length cols) ->
  obj = [] \/
  (exists idx0 c0, obj = ("id", JStr idx0) :: combine cols c0 /\
                   List.length c0 = List.length cols) ->
  jsonl_lines obj (map (fun r => (decimal (fst r), combine cols (snd r))) rs)
  = map (own_line cols) rs.
Proof.
  intros Hnd Hid. revert obj.
  induction rs as [|[i cells] rs IH]; intros obj Hrect Hobj; simpl;
    [reflexivity|].
  assert (L : List.length cells = List.length cols)
    by (apply (Hrect (i, cells)); now left).
  assert (E : write_row obj (decimal i) (combine cols cells)
              = ("id", JStr (decimal i)) :: combine cols cells).
  { destruct Hobj as [->|[idx0 [c0 [-> L0]]]].
    - now apply write_row_first.
    - now apply write_row_next. }
  rewrite E. unfold own_line at 1. simpl. f_equal.
  apply IH.
  - intros r Hr. apply Hrect. now right.
  - right. now exists (decimal i), cells.
Qed.

(** On a table as [pandas] hands it over (every row has a cell for every
    column, labels and columns are unique, no column is named [id]) the
    lines of the jsonl file are, row by row, the [id] followed by the cells
    of that row under their column labels: the reuse of the record object
    leaves no trace. *)
Theorem pipeline_lines_are_own_rows part :
  NoDup (index part) -> NoDup (columns part) -> ~ In "id" (columns part) ->
  rectangular part ->
  jsonl_of part = Some (map (own_line (columns part)) (rows part)).
Proof.
  intros Hidx Hcols Hid Hrect. unfold jsonl_of, to_json_index.
  rewrite (nodupb_true Nat.eqb _ Nat.eqb_eq Hidx).
  rewrite (nodupb_true String.eqb _ String.eqb_eq Hcols).
  cbn [andb option_map]. f_equal. unfold create_jsonl_data.
  apply jsonl_lines_own; auto.
Qed.

Lemma pipeline_lines_are_own_rows_witness :
  jsonl_of (load_table sample_header sample_records)
  = Some (map (own_line ["img"; "label"; "text"])
              (rows (load_table sample_header sample_records))).
Proof.
  apply (pipeline_lines_are_own_rows (load_table sample_header sample_records)).
  - vm_compute. repeat constructor; simpl; intuition discriminate.
  - vm_compute. repeat constructor; simpl; intuition discriminate.
  - vm_compute. intuition discriminate.
  - intros r Hr. vm_compute in Hr.
    repeat (destruct Hr as [<-|Hr]; [reflexivity|]). destruct Hr.
Defined.

(** The [id] of a line is the cell the row itself has under [id] when it
    has one, and the key of the row otherwise: the key is written first and
    the fields of the row are written over it. *)
Theorem id_field_of_line pre idx row post :
  wf row ->
  exists line,
    nth_error (create_jsonl_data (pre ++ (idx, row) :: post)%list)
              (List.length pre) = Some line /\
    id_of line = Some (match get "id" row with
                       | Some v => v
                       | None => JStr idx
                       end).
Proof.
  intros Hwf. eexists. split; [apply nth_jsonl_lines|].
  unfold id_of. destruct (get "id" row) as [v|] eqn:E.
  - now apply get_write_row_in.
  - apply get_write_row_id. now apply get_none_iff.
Qed.

Lemma id_field_of_line_witness :
  wf [("id", JInt 100); ("img", JStr "a.png")] /\
  exists line,
    nth_error (create_jsonl_data [("0", [("id", JInt 100); ("img", JStr "a.png")])])
              0 = Some line /\
    id_of line = Some (JInt 100).
Proof.
  assert (H : wf [("id", JInt 100); ("img", JStr "a.png")]).
  { unfold wf; simpl. repeat constructor; simpl; intuition discriminate. }
  split; [exact H|].
  exact (id_field_of_line [] "0" [("id", JInt 100); ("img", JStr "a.png")] [] H).
Defined.

(** A file with fewer than three records stops the loop: the split raises
    and none of the six files of the table is produced. *)
Theorem small_tables_are_rejected np name header records g :
  List.length records < 3 ->
  fst (export_table np name (load_table header records) g) = None.
Proof.
  intros Hn. pose proof (split_needs_three_rows np header records g Hn) as H.
  unfold export_table, bind.
  destruct (split_table np (load_table header records) g) as [[p|] g'];
    [discriminate H | reflexivity].
Qed.

Lemma small_tables_are_rejected_witness :
  fst (export_table reversing "findings"
         (load_table sample_header (firstn 2 sample_records)) 0) = None.
Proof.
  apply (small_tables_are_rejected reversing "findings" sample_header
           (firstn 2 sample_records) 0).
  simpl. lia.
Defined.

(** The rename can make two columns of a regular file collide (a file that
    has a [Filename] and an [img] column, say: its labels are distinct
    before the rename and not after it).  The split still works, but
    [to_json] raises on the first partition, and no jsonl file is
    produced. *)
Theorem clashing_columns_are_rejected np name header records g :
  permutes np ->
  regular header records ->
  3 <= List.length records ->
  ~ NoDup (map rename_column header) ->
  (exists p, split_table np (load_table header records) g = (Some p, g) /\
             jsonl_of (train p) = None) /\
  fst (export_table np name (load_table header records) g) = None.
Proof.
  intros Hnp _ Hn Hdup.
  destruct (split_table_spec np header records g Hnp Hn)
    as [p [E [_ [_ [_ [_ [C1 _]]]]]]].
  assert (J : jsonl_of (train p) = None).
  { unfold jsonl_of, to_json_index. rewrite C1.
    change (columns (load_table header records))
      with (map rename_column header).
    destruct (nodupb String.eqb (map rename_column header)) eqn:Eb.
    - exfalso. apply Hdup. exact (nodupb_NoDup _ _ String.eqb_eq Eb).
    - now rewrite andb_false_r. }
  split; [now exists p|].
  unfold export_table, bind, lift. rewrite E, J. reflexivity.
Qed.

Lemma clashing_columns_are_rejected_witness :
  fst (export_table reversing "findings"
         (load_table clash_header clash_records) 0) = None.
Proof.
  apply (clashing_columns_are_rejected reversing "findings" clash_header
           clash_records 0).
  - intros g n. simpl. apply Permutation_sym, Permutation_rev.
  - split; [|split].
    + unfold clash_header. repeat constructor; simpl; intuition discriminate.
    + simpl. intuition discriminate.
    + intros r Hr. simpl in Hr.
      repeat (destruct Hr as [<-|Hr]; [reflexivity|]). destruct Hr.
  - simpl. lia.
  - vm_compute. intros H. inversion H as [|? ? Hout _]. apply Hout. now left.
Defined.

(** A table that is split has no empty partition, and its train partition
    is at least as large as its validation partition. *)
Theorem partitions_are_not_empty np header records g :
  permutes np ->
  3 <= List.length records ->
  exists p,
    split_table np (load_table header records) g = (Some p, g) /\
    1 <= shape0 (test p) /\ 1 <= shape0 (val p) /\
    shape0 (val p) <= shape0 (train p).
Proof.
  intros Hnp Hn.
  destruct (split_table_spec np header records g Hnp Hn)
    as [p [E [_ [Hsum [[S1 [S2 S3]] _]]]]].
  exists p. split; [exact E|].
  pose proof (ceil_fifth (List.length records)) as [Hc1 Hc2].
  pose proof (ceil_quarter (List.length records - shape0 (test p))) as [Hq1 Hq2].
  lia.
Qed.

Lemma partitions_are_not_empty_witness :
  exists p,
    split_table reversing (load_table sample_header sample_records) 0
    = (Some p, 0) /\
    1 <= shape0 (test p) /\ 1 <= shape0 (val p) /\
    shape0 (val p) <= shape0 (train p).
Proof.
  apply (partitions_are_not_empty reversing sample_header sample_records 0).
  - intros g n. simpl. apply Permutation_sym, Permutation_rev.
  - simpl. lia.
Defined.

End ExportMore.

(** ** Table names and output paths *)

Module ListingFacts.
Import Frame Sklearn Exporter Eff KeyPattern KeyPatternFacts RenameFacts.
Import Listing Samples.

Lemma table_name_cons c s :
  table_name (String c s)
  = if Ascii.eqb c "."%char then EmptyString else String c (table_name s).
Proof.
  unfold table_name. simpl. destruct (Ascii.eqb c "."); [reflexivity|].
  destruct (str_partition "." s) as [[h m] t]. reflexivity.
Qed.

(** The name of a table is the file name up to its first dot: for a stem
    without a dot, [stem.ext] is named [stem] whatever the extension, dots in
    it included, and so is a file called just [stem].  Files that differ only
    after the first dot therefore get the same name. *)
Theorem table_name_is_stem stem ext :
  ~ In "."%char (list_ascii_of_string stem) ->
  table_name (stem ++ "." ++ ext) = stem /\ table_name stem = stem.
Proof.
  induction stem as [|c stem IH]; intros Hdot.
  - split; reflexivity.
  - simpl in Hdot.
    assert (Hc : Ascii.eqb c "."%char = false).
    { apply Ascii.eqb_neq. intros ->. apply Hdot. now left. }
    destruct IH as [IH1 IH2]; [intros H; apply Hdot; now right|].
    change (String c stem ++ "." ++ ext) with (String c (stem ++ "." ++ ext)).
    rewrite !table_name_cons, Hc, IH1, IH2. split; reflexivity.
Qed.

Lemma table_name_is_stem_witness :
  table_name "findings.v2.csv" = "findings" /\ table_name "findings" = "findings".
Proof.
  apply (table_name_is_stem "findings" "v2.csv").
  simpl. intuition discriminate.
Defined.

Lemma append_inv_tail (a b s : string) : a ++ s = b ++ s -> a = b.
Proof.
  intros H. apply chars_inj. apply (f_equal chars) in H.
  rewrite !chars_app in H. now apply app_inv_tail in H.
Qed.

Lemma rev_chars_app a s :
  rev (chars (a ++ s)) = (rev (chars s) ++ rev (chars a))%list.
Proof. now rewrite chars_app, rev_app_distr. Qed.

(** Two of the six paths, for the names [n1] and [n2], are equal only when
    they are the same kind of file and the names are equal. *)
Ltac path_clash E :=
  unfold path_join, CSV_DIR, JSON_DIR in E; simpl in E;
  first
    [ discriminate E
    | injection E as E;
      first
        [ apply append_inv_tail in E
        | apply (f_equal (fun s => rev (chars s))) in E;
          rewrite !rev_chars_app in E; simpl in E; discriminate E ] ].

Lemma output_paths_meet n1 n2 p :
  In p (output_paths n1) -> In p (output_paths n2) -> n1 = n2.
Proof.
  unfold output_paths. simpl In.
  intros [<-|[<-|[<-|[<-|[<-|[<-|[]]]]]]] [E|[E|[E|[E|[E|[E|[]]]]]]];
    path_clash E; now symmetry.
Qed.

Lemma output_paths_NoDup name : NoDup (output_paths name).
Proof.
  unfold output_paths.
  repeat (constructor;
          [simpl In;
           intros H;
           repeat (destruct H as [H|H];
                   [unfold path_join, CSV_DIR, JSON_DIR in H; simpl in H;
                    first [discriminate H
                          | injection H as H; apply append_inv_head in H;
                            discriminate H]
                   |]);
           exact H|]).
  constructor.
Qed.

(** The six files of a table have six different paths, the files that are
    written are exactly these, and tables with different names share no
    path: no file of one table is overwritten by a file of another. *)
Theorem output_paths_do_not_clash name1 name2 :
  name1 <> name2 ->
  NoDup (output_paths name1) /\
  (forall p, In p (output_paths name1) -> ~ In p (output_paths name2)) /\
  (forall np df g files g',
     export_table np name1 df g = (Some files, g') ->
     map fst files = output_paths name1).
Proof.
  intros Hne. split; [apply output_paths_NoDup|]. split.
  - intros p H1 H2. apply Hne. exact (output_paths_meet _ _ _ H1 H2).
  - intros np df g files g'. unfold export_table, bind, lift, ret.
    destruct (split_table np df g) as [[p|] g1]; [|discriminate].
    destruct (jsonl_of (train p)); [|discriminate].
    destruct (jsonl_of (val p)); [|discriminate].
    destruct (jsonl_of (test p)); [|discriminate].
    intros E. inversion E. reflexivity.
Qed.

Lemma output_paths_do_not_clash_witness :
  "findings" <> "impression" /\
  NoDup (output_paths "findings") /\
  (forall p, In p (output_paths "findings") ->
             ~ In p (output_paths "impression")).
Proof.
  assert (H : "findings" <> "impression") by (intros E; discriminate E).
  split; [exact H|].
  destruct (output_paths_do_not_clash "findings" "impression" H) as [H1 [H2 _]].
  split; [exact H1 | exact H2].
Defined.

End ListingFacts.
